(** * Spotify Sorter: the front-end logic, embedded and verified

    The development follows the TypeScript sources:
    - [Js]        the few JavaScript primitives the sources rely on
                  ([split], [startsWith], [replace], [parseInt], [padStart],
                  template printing of numbers, truthiness);
    - [Governor]  the rate-limit banner of
                  [frontend/src/components/PlaylistSelector.tsx];
    - [Cron]      [parseCronToSimple] / [updateCronFromSimple] of
                  [frontend/src/pages/Schedules.tsx] and
                  [src/components/DesktopSchedulesModal.tsx] (the two copies
                  differ by comments only);
    - [Store]     the zustand store of [src/store.ts];
    - [Scan]      [performScanLoop] and [handleRunProcess] of [src/App.tsx],
                  with [invoke] of the Tauri shim and the Run button of
                  [src/components/ActionButtons.tsx];
    - [Dashboard] [handleRunNow] of [frontend/src/pages/Dashboard.tsx];
    - [Runs]      the run registry of the server, which is not among the
                  sources and is modelled from the specification;
    - [Review]    the review queue and [handleApplyReview] of [src/App.tsx];
    - [PlaylistSection] the playlist list of the desktop app, its filters
                  and its mouse selection;
    - [Selector]  the list and the clicks of the playlist picker of
                  [frontend/src/components/PlaylistSelector.tsx].

    Strings are byte strings: the models agree with the sources on ASCII
    contents.  JavaScript numbers are modelled by [Z] (with [None] for NaN
    where NaN can arise).  This is exact on the safe integers, those of
    magnitude at most 2^53 - 1 ([Js.maxSafe]): there every integer is a
    double, [parseInt] reads a numeral without rounding, [t - 1] is the
    predecessor and a template prints plain digits.  Beyond them the
    sources round, and print in exponent form from 1e21 on; statements
    about numbers of any size are therefore made for safe integers only. *)

From Stdlib Require Import ZArith List String Ascii Bool Lia DecimalString Permutation.
From Stdlib Require DecimalPos.
Import ListNotations.

Local Open Scope string_scope.
Local Open Scope Z_scope.

(* ===================================================================== *)
(** ** JavaScript primitives *)
(* ===================================================================== *)

Module Js.

(** [s.split(sep)] for a one-character separator: never the empty list,
    empty fields are kept. *)
Fixpoint split (sep : ascii) (s : string) : list string :=
  match s with
  | EmptyString => [EmptyString]
  | String c rest =>
      if Ascii.eqb c sep then EmptyString :: split sep rest
      else match split sep rest with
           | [] => [String c EmptyString]
           | w :: ws => String c w :: ws
           end
  end.

(** [s.startsWith(p)] *)
Definition startsWith (p s : string) : bool := String.prefix p s.

(** Drop the first [n] characters. *)
Fixpoint drop (n : nat) (s : string) : string :=
  match n, s with
  | O, _ => s
  | S _, EmptyString => EmptyString
  | S n', String _ rest => drop n' rest
  end.

(** [s.replace(pat, rep)] with a string pattern: the first occurrence only. *)
Fixpoint replace (pat rep s : string) : string :=
  if String.prefix pat s then rep ++ drop (String.length pat) s
  else match s with
       | EmptyString => EmptyString
       | String c rest => String c (replace pat rep rest)
       end.

(** [s.includes(pat)] *)
Fixpoint includes (pat s : string) : bool :=
  if String.prefix pat s then true
  else match s with
       | EmptyString => false
       | String _ rest => includes pat rest
       end.

(** Truthiness of a string: only the empty string is falsy. *)
Definition truthy (s : string) : bool :=
  match s with EmptyString => false | _ => true end.

(** A number that may be NaN. *)
Definition num := option Z.

(** [Number.MAX_SAFE_INTEGER], and the integers on which the arithmetic,
    the reading and the printing of the sources are exact. *)
Definition maxSafe : Z := 9007199254740991.

Definition safe (z : Z) : Prop := Z.abs z <= maxSafe.

Definition isNaN (n : num) : bool :=
  match n with None => true | Some _ => false end.

(** [n || d] on numbers: NaN and 0 are falsy. *)
Definition num_or (n : num) (d : Z) : Z :=
  match n with
  | None => d
  | Some z => if Z.eqb z 0 then d else z
  end.

(** Decimal printing of an integer, as [String(n)] and template literals
    do for integers below 1e21 in magnitude. *)
Definition string_of_Z (z : Z) : string :=
  NilZero.string_of_int (Z.to_int z).

Definition toString (n : num) : string :=
  match n with
  | None => "NaN"
  | Some z => string_of_Z z
  end.

(** [s.padStart(len, "0")] *)
Fixpoint zeros (n : nat) : string :=
  match n with O => EmptyString | S n' => String "0" (zeros n') end.

Definition padStart0 (len : nat) (s : string) : string :=
  zeros (len - String.length s) ++ s.

Definition isWhite (c : ascii) : bool :=
  let n := nat_of_ascii c in
  (Nat.eqb n 32 || (Nat.leb 9 n && Nat.leb n 13))%bool.

Fixpoint trimStart (s : string) : string :=
  match s with
  | String c rest => if isWhite c then trimStart rest else s
  | EmptyString => EmptyString
  end.

(** Value of a digit in the given radix. *)
Definition digitVal (radix : Z) (c : ascii) : option Z :=
  let n := Z.of_nat (nat_of_ascii c) in
  let v :=
    if (48 <=? n) && (n <=? 57) then Some (n - 48)
    else if (97 <=? n) && (n <=? 122) then Some (n - 87)
    else if (65 <=? n) && (n <=? 90) then Some (n - 55)
    else None in
  match v with
  | Some d => if d <? radix then Some d else None
  | None => None
  end.

(** The longest prefix of digits, accumulated; [None] when there is none. *)
Fixpoint digits (radix : Z) (acc : option Z) (s : string) : option Z :=
  match s with
  | EmptyString => acc
  | String c rest =>
      match digitVal radix c with
      | Some d =>
          digits radix
            (Some (match acc with None => d | Some a => a * radix + d end))
            rest
      | None => acc
      end
  end.

Definition signed (neg : bool) (n : num) : num :=
  match n with
  | Some z => Some (if neg then - z else z)
  | None => None
  end.

(** [parseInt(s)] without a radix: leading white space, a sign, an optional
    [0x] prefix, then the longest run of digits.  The result is the exact
    value of the digits, which is what the sources compute when that value
    is a safe integer. *)
Definition parseInt (s : string) : num :=
  let s1 := trimStart s in
  let '(neg, s2) :=
    match s1 with
    | String "-" rest => (true, rest)
    | String "+" rest => (false, rest)
    | _ => (false, s1)
    end in
  if (String.prefix "0x" s2 || String.prefix "0X" s2)%bool
  then signed neg (digits 16 None (drop 2 s2))
  else signed neg (digits 10 None s2).

(** [parseInt(s, 10)] *)
Definition parseInt10 (s : string) : num :=
  let s1 := trimStart s in
  let '(neg, s2) :=
    match s1 with
    | String "-" rest => (true, rest)
    | String "+" rest => (false, rest)
    | _ => (false, s1)
    end in
  signed neg (digits 10 None s2).

Definition isDigit (c : ascii) : bool :=
  let n := nat_of_ascii c in (Nat.leb 48 n && Nat.leb n 57)%bool.

Fixpoint takeDigits (s : string) : string :=
  match s with
  | String c rest => if isDigit c then String c (takeDigits rest) else EmptyString
  | EmptyString => EmptyString
  end.

(** [s.match(/\d+/)]: the first maximal run of digits, if any. *)
Fixpoint matchDigits (s : string) : option string :=
  match s with
  | EmptyString => None
  | String c rest => if isDigit c then Some (takeDigits s) else matchDigits rest
  end.

(** *** Numerals

    [uval acc d] is the number the digits of [d] denote when read after a
    prefix worth [acc]; [lacks c s] holds when [c] does not occur in [s];
    [allDigits s] when every character of [s] is a decimal digit. *)

Fixpoint uval (acc : Z) (d : Decimal.uint) : Z :=
  match d with
  | Decimal.Nil => acc
  | Decimal.D0 l => uval (acc * 10) l
  | Decimal.D1 l => uval (acc * 10 + 1) l
  | Decimal.D2 l => uval (acc * 10 + 2) l
  | Decimal.D3 l => uval (acc * 10 + 3) l
  | Decimal.D4 l => uval (acc * 10 + 4) l
  | Decimal.D5 l => uval (acc * 10 + 5) l
  | Decimal.D6 l => uval (acc * 10 + 6) l
  | Decimal.D7 l => uval (acc * 10 + 7) l
  | Decimal.D8 l => uval (acc * 10 + 8) l
  | Decimal.D9 l => uval (acc * 10 + 9) l
  end.

Fixpoint lacks (c : ascii) (s : string) : bool :=
  match s with
  | EmptyString => true
  | String a rest => negb (Ascii.eqb a c) && lacks c rest
  end.

Fixpoint allDigits (s : string) : bool :=
  match s with
  | EmptyString => true
  | String a rest => isDigit a && allDigits rest
  end.

(** A printed integer: digits, after a minus sign or not. *)
Definition isNumeral (s : string) : bool :=
  match s with
  | EmptyString => false
  | String "-" rest => negb (String.eqb rest EmptyString) && allDigits rest
  | _ => allDigits s
  end.


(** No character of [s] is a decimal digit. *)
Fixpoint noDigits (s : string) : bool :=
  match s with
  | EmptyString => true
  | String a rest => negb (isDigit a) && noDigits rest
  end.

(** [s] does not begin with a decimal digit. *)
Definition digitFree1 (s : string) : bool :=
  match s with
  | EmptyString => true
  | String a _ => negb (isDigit a)
  end.


(** [s.toLowerCase()] on ASCII letters. *)
Definition lowerChar (c : ascii) : ascii :=
  let n := nat_of_ascii c in
  if (Nat.leb 65 n && Nat.leb n 90)%bool then ascii_of_nat (n + 32) else c.

Fixpoint toLowerCase (s : string) : string :=
  match s with
  | EmptyString => EmptyString
  | String c rest => String (lowerChar c) (toLowerCase rest)
  end.

End Js.

(* ===================================================================== *)
(** ** Rate-limit banner (PlaylistSelector.tsx) *)
(* ===================================================================== *)

Module Governor.

(** The wait time stored on a 429 answer of [/api/playlists]:
    the first number in [error.detail], or 60 when there is none
    ([detail] is [None] when it is not a string). *)
Definition secondsOf (detail : option string) : Z :=
  let message := match detail with Some m => m | None => EmptyString end in
  match Js.matchDigits message with
  | Some m => match Js.parseInt10 m with Some z => z | None => 0 end
  | None => 60
  end.

(** One tick of the countdown: [setWaitTime(t => Math.max(0, t - 1))];
    exact for a safe integer [waitTime]. *)
Definition tick (waitTime : Z) : Z := Z.max 0 (waitTime - 1).

Definition remaining (waitTime : Z) : Z := Z.max 0 waitTime.

(** [const isSpotifyBan = remaining > 120] *)
Definition isSpotifyBan (waitTime : Z) : bool := 120 <? remaining waitTime.

Definition title (waitTime : Z) : string :=
  if isSpotifyBan waitTime then "Spotify Account Lock"
  else "Local Safety Back-off".

Definition hint (waitTime : Z) : string :=
  if isSpotifyBan waitTime
  then "Spotify has locked your API access (roughly 24h)."
  else "Internal protection engaged for 60s.".

Definition colour (waitTime : Z) : string :=
  if isSpotifyBan waitTime then "#ff4500" else "#ffa500".

(** The countdown text [timeStr]. *)
Definition timeStr (waitTime : Z) : string :=
  let r := remaining waitTime in
  let h := r / 3600 in
  let m := (r mod 3600) / 60 in
  let s := r mod 60 in
  if 0 <? h then
    Js.string_of_Z h ++ "h " ++ Js.string_of_Z m ++ "m " ++ Js.string_of_Z s ++ "s"
  else if 0 <? m then Js.string_of_Z m ++ "m " ++ Js.string_of_Z s ++ "s"
  else Js.string_of_Z s ++ "s".


(** The wait time after [n] runs of the one-second timer. *)
Definition countdown (n : nat) (waitTime : Z) : Z := Nat.iter n tick waitTime.

End Governor.

(* ===================================================================== *)
(** ** Cron <-> simple frequency (Schedules.tsx, DesktopSchedulesModal.tsx) *)
(* ===================================================================== *)

Module Cron.

Inductive freq := hourly | interval | daily | weekly | monthly.

(** The simple-mode React state of the schedule editor. *)
Record simple := mkSimple {
  simpleFreq : freq;
  simpleInterval : Z;
  simpleTime : string;
  simpleDow : string;
  simpleDom : string
}.

(** [useState] initial values. *)
Definition initial : simple := mkSimple daily 6 "00:00" "1" "1".

Definition setSimpleFreq (f : freq) (st : simple) : simple :=
  mkSimple f (simpleInterval st) (simpleTime st) (simpleDow st) (simpleDom st).
Definition setSimpleInterval (n : Z) (st : simple) : simple :=
  mkSimple (simpleFreq st) n (simpleTime st) (simpleDow st) (simpleDom st).
Definition setSimpleTime (t : string) (st : simple) : simple :=
  mkSimple (simpleFreq st) (simpleInterval st) t (simpleDow st) (simpleDom st).
Definition setSimpleDow (d : string) (st : simple) : simple :=
  mkSimple (simpleFreq st) (simpleInterval st) (simpleTime st) d (simpleDom st).
Definition setSimpleDom (d : string) (st : simple) : simple :=
  mkSimple (simpleFreq st) (simpleInterval st) (simpleTime st) (simpleDow st) d.

(** [const pad = (n: number) => n.toString().padStart(2, '0')] *)
Definition pad (n : Js.num) : string := Js.padStart0 2 (Js.toString n).

Definition star (s : string) : bool := String.eqb s "*".

(** The five branch conditions of [parseCronToSimple], in source order. *)
Definition isHourly (min hour dom mon dow : string) : bool :=
  String.eqb min "0" && star hour && star dom && star mon && star dow.
Definition isInterval (min hour dom mon dow : string) : bool :=
  String.eqb min "0" && Js.startsWith "*/" hour && star dom && star mon && star dow.
Definition isDaily (min hour dom mon dow : string) : bool :=
  star dom && star mon && star dow.
Definition isWeekly (min hour dom mon dow : string) : bool :=
  star dom && star mon && negb (star dow).
Definition isMonthly (min hour dom mon dow : string) : bool :=
  negb (star dom) && star mon && star dow.

(** [`${pad(parseInt(hour))}:${pad(parseInt(min))}`] *)
Definition clock (hour min : string) : string :=
  pad (Js.parseInt hour) ++ ":" ++ pad (Js.parseInt min).

(** The fields of a cron string and the i-th of them. *)
Definition fields (cron : string) : list string := Js.split " " cron.
Definition field (i : nat) (parts : list string) : string := nth i parts EmptyString.

Definition parseCronToSimple (cron : string) (st : simple) : simple :=
  let parts := fields cron in
  if Nat.ltb (List.length parts) 5 then st
  else
    let min := field 0 parts in
    let hour := field 1 parts in
    let dom := field 2 parts in
    let mon := field 3 parts in
    let dow := field 4 parts in
    let st :=
      setSimpleDom "1" (setSimpleDow "1" (setSimpleTime "00:00" (setSimpleInterval 6 st))) in
    if isHourly min hour dom mon dow then setSimpleFreq hourly st
    else if isInterval min hour dom mon dow then
      let st := setSimpleFreq interval st in
      let n := Js.parseInt (Js.replace "*/" EmptyString hour) in
      match n with
      | Some z => setSimpleInterval z st
      | None => st
      end
    else if isDaily min hour dom mon dow then
      setSimpleTime (clock hour min) (setSimpleFreq daily st)
    else if isWeekly min hour dom mon dow then
      setSimpleTime (clock hour min) (setSimpleDow dow (setSimpleFreq weekly st))
    else if isMonthly min hour dom mon dow then
      setSimpleTime (clock hour min) (setSimpleDom dom (setSimpleFreq monthly st))
    else
      setSimpleTime "00:00" (setSimpleFreq daily st).

(** A destructured array element that may be [undefined], printed in a
    template literal. *)
Definition show (o : option Z) : string :=
  match o with
  | Some z => Js.string_of_Z z
  | None => "undefined"
  end.

(** The value [updateCronFromSimple] stores in [formData.cron_expression]. *)
Definition updateCronFromSimple (st : simple) : string :=
  let hm := map (fun n => Js.num_or (Js.parseInt n) 0) (Js.split ":" (simpleTime st)) in
  let h := show (nth_error hm 0) in
  let m := show (nth_error hm 1) in
  match simpleFreq st with
  | hourly => "0 * * * *"
  | interval => "0 */" ++ Js.string_of_Z (simpleInterval st) ++ " * * *"
  | daily => m ++ " " ++ h ++ " * * *"
  | weekly => m ++ " " ++ h ++ " * * " ++ simpleDow st
  | monthly => m ++ " " ++ h ++ " " ++ simpleDom st ++ " * *"
  end.

(** The value the reset and the fall-back leave. *)
Definition dailyMidnight : simple := mkSimple daily 6 "00:00" "1" "1".

(** Does [parseCronToSimple] take one of its five branches on the first five
    fields, rather than the final [else]? *)
Definition takesBranch (cron : string) : bool :=
  let p := fields cron in
  let min := field 0 p in
  let hour := field 1 p in
  let dom := field 2 p in
  let mon := field 3 p in
  let dow := field 4 p in
  isHourly min hour dom mon dow || isInterval min hour dom mon dow
  || isDaily min hour dom mon dow || isWeekly min hour dom mon dow
  || isMonthly min hour dom mon dow.


(** *** The five patterns, as the editor names and writes them

    What the specification calls the five simple-frequency patterns is
    stated here on its own, after the five choices of the editor and the
    strings [updateCronFromSimple] writes for them, and not after the
    branch tests of [parseCronToSimple]:
    hourly ["0 * * * *"], every N hours ["0 */N * * *"], daily
    ["M H * * *"], weekly ["M H * * D"] and monthly ["M H D * *"], where
    [M], [H] and [N] are numbers and [D] is a day field other than ["*"]. *)
Definition specNumber (s : string) : bool :=
  negb (String.eqb s EmptyString) && Js.allDigits s.

Definition specPattern (cron : string) : option freq :=
  match fields cron with
  | [min; hour; dom; mon; dow] =>
      if String.eqb min "0" && star hour && star dom && star mon && star dow
      then Some hourly
      else if String.eqb min "0" && Js.startsWith "*/" hour
              && specNumber (Js.drop 2 hour) && star dom && star mon && star dow
      then Some interval
      else if specNumber min && specNumber hour && star mon then
        if star dom && star dow then Some daily
        else if star dom then Some weekly
        else if star dow then Some monthly
        else None
      else None
  | _ => None
  end.

(** *** The form around the two functions

    [formData.cron_expression], [showModal] ([showEditModal] in the desktop
    copy) and the simple state.  [updateCronFromSimple] has one caller, the
    effect
    [useEffect(() => { if (showModal) updateCronFromSimple() },
               [simpleFreq, simpleInterval, simpleTime, simpleDow, simpleDom])],
    which React runs after a render in which one of the five values is not
    the one of the render before. *)
Record Editor := mkEditor {
  cron_expression : string;
  showModal : bool;
  simpleState : simple
}.

Definition freq_eqb (a b : freq) : bool :=
  match a, b with
  | hourly, hourly | interval, interval | daily, daily
  | weekly, weekly | monthly, monthly => true
  | _, _ => false
  end.

(** The comparison of the dependency array, value by value. *)
Definition sameDeps (a b : simple) : bool :=
  freq_eqb (simpleFreq a) (simpleFreq b)
  && Z.eqb (simpleInterval a) (simpleInterval b)
  && String.eqb (simpleTime a) (simpleTime b)
  && String.eqb (simpleDow a) (simpleDow b)
  && String.eqb (simpleDom a) (simpleDom b).

(** The effect after a render; [before] is the simple state of the render
    before. *)
Definition cronEffect (before : simple) (ed : Editor) : Editor :=
  if sameDeps before (simpleState ed) then ed
  else if showModal ed
       then mkEditor (updateCronFromSimple (simpleState ed)) (showModal ed)
              (simpleState ed)
       else ed.

(** [openEditModal(s)] for a schedule with cron string [cron], and the
    render that follows. *)
Definition openEditModal (cron : string) (ed : Editor) : Editor :=
  cronEffect (simpleState ed)
    (mkEditor cron true (parseCronToSimple cron (simpleState ed))).

Definition openNewModal (ed : Editor) : Editor := openEditModal "0 0 * * *" ed.

Definition closeModal (ed : Editor) : Editor :=
  mkEditor (cron_expression ed) false (simpleState ed).

(** A change of one of the simple inputs, and the render that follows. *)
Definition changeSimple (f : simple -> simple) (ed : Editor) : Editor :=
  cronEffect (simpleState ed)
    (mkEditor (cron_expression ed) (showModal ed) (f (simpleState ed))).

(** The cron string [handleSave] sends. *)
Definition handleSave (ed : Editor) : string := cron_expression ed.

(** The page as it is mounted. *)
Definition mounted : Editor := mkEditor "0 0 * * *" false initial.

(** The interval box of the editor:
    [onChange={e => setSimpleInterval(Math.min(23, Math.max(1, parseInt(e.target.value) || 1)))}] *)
Definition onIntervalChange (value : string) (st : simple) : simple :=
  setSimpleInterval (Z.min 23 (Z.max 1 (Js.num_or (Js.parseInt value) 1))) st.

End Cron.

(* ===================================================================== *)
(** ** The application store (store.ts) *)
(* ===================================================================== *)

Module Store.

Record SortRule := mkRule {
  rule_id : string;
  criteria : string;
  descending : bool
}.

(** [Partial<SortRule>]: every key may be absent. *)
Record PartialRule := mkPartial {
  p_id : option string;
  p_criteria : option string;
  p_descending : option bool
}.

Record Playlist := mkPlaylist {
  pl_id : string;
  pl_name : string;
  owner : string;
  editable : bool;
  collaborative : bool;
  isPublic : bool
}.

Record AppState := mkState {
  isLoggedIn : bool;
  userName : string;
  sortEnabled : bool;
  sortRules : list SortRule;
  dupesEnabled : bool;
  dupePreference : string;
  versionEnabled : bool;
  versionPreference : string;
  playlists : list Playlist;
  selectedPlaylistIds : list string;
  filterType : string;
  searchQuery : string;
  isProcessing : bool;
  statusText : string;
  shouldCancel : bool
}.

(** The initial state; the four ids come from [generateId()]. *)
Definition initialState (i1 i2 i3 i4 : string) : AppState :=
  mkState false EmptyString
    true
    [ mkRule i1 "Release Date" true;
      mkRule i2 "Artist" false;
      mkRule i3 "Album" false;
      mkRule i4 "Track Name" false ]
    false "Keep Oldest (Release Date)"
    false "Artist Only: Oldest Version"
    [] [] "Editable Only" EmptyString
    false "Ready" false.

(** [set({ field: v })] for the fields the actions write. *)
Definition set_sortEnabled (v : bool) (s : AppState) : AppState :=
  mkState (isLoggedIn s) (userName s) v (sortRules s) (dupesEnabled s)
    (dupePreference s) (versionEnabled s) (versionPreference s) (playlists s)
    (selectedPlaylistIds s) (filterType s) (searchQuery s) (isProcessing s)
    (statusText s) (shouldCancel s).
Definition set_sortRules (v : list SortRule) (s : AppState) : AppState :=
  mkState (isLoggedIn s) (userName s) (sortEnabled s) v (dupesEnabled s)
    (dupePreference s) (versionEnabled s) (versionPreference s) (playlists s)
    (selectedPlaylistIds s) (filterType s) (searchQuery s) (isProcessing s)
    (statusText s) (shouldCancel s).
Definition set_playlists (v : list Playlist) (s : AppState) : AppState :=
  mkState (isLoggedIn s) (userName s) (sortEnabled s) (sortRules s) (dupesEnabled s)
    (dupePreference s) (versionEnabled s) (versionPreference s) v
    (selectedPlaylistIds s) (filterType s) (searchQuery s) (isProcessing s)
    (statusText s) (shouldCancel s).
Definition set_selectedPlaylistIds (v : list string) (s : AppState) : AppState :=
  mkState (isLoggedIn s) (userName s) (sortEnabled s) (sortRules s) (dupesEnabled s)
    (dupePreference s) (versionEnabled s) (versionPreference s) (playlists s)
    v (filterType s) (searchQuery s) (isProcessing s)
    (statusText s) (shouldCancel s).
Definition set_isProcessing (v : bool) (s : AppState) : AppState :=
  mkState (isLoggedIn s) (userName s) (sortEnabled s) (sortRules s) (dupesEnabled s)
    (dupePreference s) (versionEnabled s) (versionPreference s) (playlists s)
    (selectedPlaylistIds s) (filterType s) (searchQuery s) v
    (statusText s) (shouldCancel s).
Definition set_statusText (v : string) (s : AppState) : AppState :=
  mkState (isLoggedIn s) (userName s) (sortEnabled s) (sortRules s) (dupesEnabled s)
    (dupePreference s) (versionEnabled s) (versionPreference s) (playlists s)
    (selectedPlaylistIds s) (filterType s) (searchQuery s) (isProcessing s)
    v (shouldCancel s).
Definition set_shouldCancel (v : bool) (s : AppState) : AppState :=
  mkState (isLoggedIn s) (userName s) (sortEnabled s) (sortRules s) (dupesEnabled s)
    (dupePreference s) (versionEnabled s) (versionPreference s) (playlists s)
    (selectedPlaylistIds s) (filterType s) (searchQuery s) (isProcessing s)
    (statusText s) v.

(** *** Actions *)

Definition setSortEnabled := set_sortEnabled.

(** [rule?.criteria || 'Artist'] *)
Definition criteriaOr (rule : option PartialRule) : string :=
  match rule with
  | Some r =>
      match p_criteria r with
      | Some c => if Js.truthy c then c else "Artist"
      | None => "Artist"
      end
  | None => "Artist"
  end.

(** [rule?.descending ?? false] *)
Definition descendingOr (rule : option PartialRule) : bool :=
  match rule with
  | Some r => match p_descending r with Some d => d | None => false end
  | None => false
  end.

(** [addSortRule(rule)]; [fresh] is the value [generateId()] returns. *)
Definition addSortRule (fresh : string) (rule : option PartialRule)
  (s : AppState) : AppState :=
  if Nat.leb 8 (List.length (sortRules s)) then s
  else
    let newRule := mkRule fresh (criteriaOr rule) (descendingOr rule) in
    set_sortRules (sortRules s ++ [newRule])%list s.

Definition removeSortRule (id : string) (s : AppState) : AppState :=
  if Nat.leb (List.length (sortRules s)) 1 then s
  else set_sortRules (filter (fun r => negb (String.eqb (rule_id r) id)) (sortRules s)) s.

(** [{ ...r, ...updates }] *)
Definition merge (r : SortRule) (u : PartialRule) : SortRule :=
  mkRule
    (match p_id u with Some i => i | None => rule_id r end)
    (match p_criteria u with Some c => c | None => criteria r end)
    (match p_descending u with Some d => d | None => descending r end).

Definition updateSortRule (id : string) (updates : PartialRule)
  (s : AppState) : AppState :=
  set_sortRules
    (map (fun r => if String.eqb (rule_id r) id then merge r updates else r)
       (sortRules s)) s.

Definition reorderSortRules (newOrder : list SortRule) (s : AppState) : AppState :=
  set_sortRules newOrder s.

Definition includes (id : string) (l : list string) : bool :=
  existsb (String.eqb id) l.

Definition togglePlaylistSelection (id : string) (s : AppState) : AppState :=
  if includes id (selectedPlaylistIds s)
  then set_selectedPlaylistIds
         (filter (fun pid => negb (String.eqb pid id)) (selectedPlaylistIds s)) s
  else set_selectedPlaylistIds (selectedPlaylistIds s ++ [id])%list s.

Definition selectAllPlaylists (s : AppState) : AppState :=
  set_selectedPlaylistIds (map pl_id (playlists s)) s.
Definition deselectAllPlaylists := set_selectedPlaylistIds [].
Definition setSelectedPlaylistIds := set_selectedPlaylistIds.
Definition setStatus := set_statusText.
Definition setPlaylists := set_playlists.
Definition cancelProcessing := set_shouldCancel true.
Definition resetCancel := set_shouldCancel false.

(** *** The drag-and-drop reorder of SortSection.tsx

    [handleMouseUp] copies the rules, removes the dragged one with
    [splice(sourceIndex, 1)], re-inserts it with
    [splice(currentIndex, 0, movedRule)] and hands the result to
    [reorderSortRules]; nothing happens when the two indices agree. *)

Definition spliceOut {A} (i : nat) (l : list A) : list A :=
  (firstn i l ++ skipn (S i) l)%list.

Definition spliceIn {A} (i : nat) (x : A) (l : list A) : list A :=
  (firstn i l ++ x :: skipn i l)%list.

(** [None]: [sourceIndex] is not a row of the list (JavaScript would insert
    [undefined], which no [SortRule] represents). *)
Definition dragReorder (sourceIndex currentIndex : nat) (s : AppState)
  : option AppState :=
  if Nat.eqb sourceIndex currentIndex then Some s
  else match nth_error (sortRules s) sourceIndex with
       | Some movedRule =>
           Some (reorderSortRules
                   (spliceIn currentIndex movedRule
                      (spliceOut sourceIndex (sortRules s))) s)
       | None => None
       end.

(** *** Sequences of rule edits *)

Inductive op :=
| OpAdd (fresh : string) (rule : option PartialRule)
| OpRemove (id : string)
| OpUpdate (id : string) (updates : PartialRule).

Definition apply (s : AppState) (o : op) : AppState :=
  match o with
  | OpAdd fresh rule => addSortRule fresh rule s
  | OpRemove id => removeSortRule id s
  | OpUpdate id updates => updateSortRule id updates s
  end.

Definition run (ops : list op) (s : AppState) : AppState :=
  fold_left apply ops s.

(** The rule ids of a state. *)
Definition ruleIds (s : AppState) : list string := map rule_id (sortRules s).


(** *** Edits as the panel makes them

    The sort panel adds rules under ids that [generateId()] has not given
    before and updates a rule without touching its id
    ([updateSortRule(rule.id, { descending: ... })]).  [panelOps s ops]
    says that [ops], run from [s], are of that kind. *)
Fixpoint panelOps (s : AppState) (ops : list op) : Prop :=
  match ops with
  | [] => True
  | o :: rest =>
      match o with
      | OpAdd fresh _ => ~ In fresh (ruleIds s)
      | OpRemove _ => True
      | OpUpdate _ updates => p_id updates = None
      end /\ panelOps (apply s o) rest
  end.


Definition set_filterType (v : string) (s : AppState) : AppState :=
  mkState (isLoggedIn s) (userName s) (sortEnabled s) (sortRules s) (dupesEnabled s)
    (dupePreference s) (versionEnabled s) (versionPreference s) (playlists s)
    (selectedPlaylistIds s) v (searchQuery s) (isProcessing s)
    (statusText s) (shouldCancel s).
Definition set_searchQuery (v : string) (s : AppState) : AppState :=
  mkState (isLoggedIn s) (userName s) (sortEnabled s) (sortRules s) (dupesEnabled s)
    (dupePreference s) (versionEnabled s) (versionPreference s) (playlists s)
    (selectedPlaylistIds s) (filterType s) v (isProcessing s)
    (statusText s) (shouldCancel s).
Definition setFilterType := set_filterType.
Definition setSearchQuery := set_searchQuery.

End Store.

(* ===================================================================== *)
(** ** The scan loop and the Run button (App.tsx) *)
(* ===================================================================== *)

Module Scan.
Import Store.

Inductive ChangeType := replace | duplicate.

Record ReviewChange := mkChange {
  change_id : string;
  change_type : ChangeType
}.

Record Stats := mkStats {
  original_count : Z;
  duplicates_removed : Z;
  versions_replaced : Z;
  sorted : bool
}.

Record ScanResult := mkResult {
  playlist_id : string;
  name : string;
  changes : list ReviewChange;
  stats : Stats
}.

(** Arguments of [invoke('scan_playlist', ...)]; [playlistIds] is always the
    one-element array [[playlistId]]. *)
Record ScanArgs := mkScanArgs {
  scan_playlistId : string;
  scan_sortRules : list SortRule;
  scan_sortEnabled : bool;
  scan_dupesEnabled : bool;
  scan_dupePreference : string;
  scan_versionEnabled : bool;
  scan_versionPreference : string
}.

(** Arguments of [invoke('apply_changes', ...)]. *)
Record ApplyArgs := mkApplyArgs {
  apply_playlistId : string;
  approvedChanges : list ReviewChange;
  rejectedChanges : list ReviewChange;
  apply_sortRules : list SortRule;
  apply_sortEnabled : bool
}.

(** What the loop does to the outside, in order:
    [setStatus(text)], the calls of [invoke] for the two commands,
    [setReviewQueue(prev => [...prev, r])],
    [await new Promise(r => setTimeout(r, ms))], [console.error(msg, e)],
    [console.warn(msg, args)] (the arguments are those of the call before
    it), [useAppStore.setState({ isProcessing: b })] and
    [setTimeout(() => setStatus(text), ms)]. *)
Inductive event :=
| Status (text : string)
| InvokeScan (a : ScanArgs)
| InvokeApply (a : ApplyArgs)
| Enqueue (r : ScanResult)
| Sleep (ms : Z)
| ConsoleError (msg : string) (e : string)
| ConsoleWarn (msg : string)
| Processing (b : bool)
| Later (ms : Z) (text : string).

(** What the loop reads from the outside.  The store can change while the
    loop awaits (the Cancel button, the settings panels), and so can the
    review queue; the Tauri back end answers the two commands.  A rejected
    promise carries the text [String(e)].
    - [storeAt i]: [getState()] at the top of iteration [i];
    - [pendingAt i]: [reviewQueueRef.current.length] in iteration [i];
    - [pendingEnd]: the same after the loop;
    - [desktop]: the page runs in Tauri, that is [isTauri()] holds and one
      of the three [invoke] functions the shim looks for is there;
    - [tauriScan i]: the answer of Tauri to the scan of iteration [i];
    - [tauriApply i]: the rejection by Tauri, if any, of the apply of
      iteration [i]. *)
Record World := mkWorld {
  storeAt : nat -> AppState;
  pendingAt : nat -> nat;
  pendingEnd : nat;
  desktop : bool;
  tauriScan : nat -> string + list ScanResult;
  tauriApply : nat -> option string
}.

(** The store as the first iteration finds it is the one the caller left. *)
Definition startAt (s : AppState) (w : World) : World :=
  mkWorld (fun i => match i with O => s | _ => storeAt w i end)
    (pendingAt w) (pendingEnd w) (desktop w) (tauriScan w) (tauriApply w).

(** A computation that emits events and returns or throws. *)
Definition M (A : Type) : Type := (list event * (string + A))%type.

Definition ret {A} (a : A) : M A := ([], inr a).
Definition throw {A} (e : string) : M A := ([], inl e).
Definition emit (ev : event) : M unit := ([ev], inr tt).
Definition bind {A B} (m : M A) (k : A -> M B) : M B :=
  match m with
  | (tr, inl e) => (tr, inl e)
  | (tr, inr a) => let '(tr2, r) := k a in ((tr ++ tr2)%list, r)
  end.
Definition catch {A} (m : M A) (h : string -> M A) : M A :=
  match m with
  | (tr, inl e) => let '(tr2, r) := h e in ((tr ++ tr2)%list, r)
  | (tr, inr a) => (tr, inr a)
  end.

Notation "x <- m ;; k" := (bind m (fun x => k))
  (at level 61, m at next level, right associativity).
Notation "m ;;; k" := (bind m (fun _ => k))
  (at level 61, right associativity).

Definition trace {A} (m : M A) : list event := fst m.

(** The exception a computation ends with, if any. *)
Definition thrown {A} (m : M A) : option string :=
  match snd m with inl e => Some e | inr _ => None end.

Definition natStr (n : nat) : string := Js.string_of_Z (Z.of_nat n).

(** [state.playlists.find(p => p.id === playlistId)?.name || playlistId] *)
Definition plName (state : AppState) (playlistId : string) : string :=
  match find (fun p => String.eqb (pl_id p) playlistId) (playlists state) with
  | Some p => if Js.truthy (pl_name p) then pl_name p else playlistId
  | None => playlistId
  end.

(** *** [invoke] of [tauri-api]

    In Tauri the command goes to the back end, and a rejection is logged
    with [console.error] and thrown again.  In a browser the shim knows
    neither [scan_playlist] nor [apply_changes]: it warns and throws an
    [Error], whose text is the [String(e)] the callers see. *)
Definition failedMessage (cmd : string) : string :=
  "Tauri invoke('" ++ cmd ++ "') failed:".

Definition unknownMessage (cmd : string) : string :=
  "[Web Shim] Unknown command: " ++ cmd.

Definition unsupported (cmd : string) : string :=
  "Error: Command " ++ cmd ++ " not supported in Web Mode".

(** [call] is the event of the call itself and [tauri] the answer of the
    back end, were it asked. *)
Definition invoke {A} (inTauri : bool) (cmd : string) (call : event)
  (tauri : string + A) : M A :=
  emit call ;;;
  if inTauri then
    match tauri with
    | inr a => ret a
    | inl e => emit (ConsoleError (failedMessage cmd) e) ;;; throw e
    end
  else
    emit (ConsoleWarn (unknownMessage cmd)) ;;;
    throw (unsupported cmd).

(** How the two commands end, as their callers see it. *)
Definition scanReply (w : World) (i : nat) : string + list ScanResult :=
  if desktop w then tauriScan w i else inl (unsupported "scan_playlist").

Definition applyReply (w : World) (i : nat) : option string :=
  if desktop w then tauriApply w i else Some (unsupported "apply_changes").

Definition rejection (failure : option string) : string + unit :=
  match failure with
  | Some e => inl e
  | None => inr tt
  end.

Definition invokeScan (w : World) (i : nat) (playlistId : string)
  (state : AppState) : M (list ScanResult) :=
  invoke (desktop w) "scan_playlist"
    (InvokeScan (mkScanArgs playlistId (sortRules state) (sortEnabled state)
                   (dupesEnabled state) (dupePreference state)
                   (versionEnabled state) (versionPreference state)))
    (tauriScan w i).

Definition invokeApply (w : World) (i : nat) (result : ScanResult)
  (state : AppState) : M unit :=
  invoke (desktop w) "apply_changes"
    (InvokeApply (mkApplyArgs (playlist_id result) [] []
                    (sortRules state) (sortEnabled state)))
    (rejection (tauriApply w i)).

(** The status text of a turn. *)
Definition scanningText (w : World) (i total : nat) (playlistId : string) : string :=
  "Scanning " ++ natStr (i + 1) ++ "/" ++ natStr total ++ ": "
  ++ plName (storeAt w i) playlistId ++ " (" ++ natStr (pendingAt w i)
  ++ " reviews pending)...".

(** The body of the [try]. *)
Definition tryBlock (w : World) (i total : nat) (playlistId : string) : M unit :=
  let state := storeAt w i in
  emit (Status (scanningText w i total playlistId)) ;;;
  results <- invokeScan w i playlistId state ;;
  match results with
  | [] => ret tt
  | result :: _ =>
      if Nat.ltb 0 (List.length (changes result)) then emit (Enqueue result)
      else if sorted (stats result) && sortEnabled state
           then invokeApply w i result state
           else ret tt
  end.

Definition logMessage (playlistId : string) : string :=
  "Error scanning " ++ playlistId ++ " (Name lookup failed in error handler):".

(** The [catch] clause. *)
Definition handler (playlistId : string) (e : string) : M unit :=
  if Js.includes "429" e then
    emit (Status "Rate limit hit (429). Pausing for 5 seconds...") ;;;
    emit (Sleep 5000)
  else
    emit (ConsoleError (logMessage playlistId) e).

(** One turn of the [for] loop after the cancellation check. *)
Definition iteration (w : World) (i total : nat) (playlistId : string) : M unit :=
  catch (tryBlock w i total playlistId) (handler playlistId).

(** The [for] loop; [i] is [currentIndex]. *)
Fixpoint loop (w : World) (i total : nat) (playlistIds : list string) : list event :=
  match playlistIds with
  | [] => []
  | playlistId :: rest =>
      if shouldCancel (storeAt w i) then [Status "Cancelled execution."]
      else (trace (iteration w i total playlistId) ++ loop w (S i) total rest)%list
  end.

Definition performScanLoop (w : World) (playlistIds : list string) : list event :=
  (loop w 0 (List.length playlistIds) playlistIds
   ++ [Processing false]
   ++ (if Nat.ltb 0 (pendingEnd w)
       then [Status "Scanning complete. Please finish pending reviews."]
       else [Status "Scanning complete."; Later 3000 EmptyString]))%list.

(** The status text the loop ends on. *)
Definition completionText (w : World) : string :=
  if Nat.ltb 0 (pendingEnd w)
  then "Scanning complete. Please finish pending reviews."
  else "Scanning complete.".

Definition noRules : string :=
  "No sort rules defined! Please add rules or disable sorting.".

(** [handleRunProcess]: the store when the handler returns, and the events
    it causes (those of the scan loop it starts included).  The loop runs up
    to its first [await] before the handler returns, so the store already
    shows the status of the first turn. *)
Definition handleRunProcess (w : World) (state : AppState)
  : AppState * list event :=
  if Nat.eqb (List.length (selectedPlaylistIds state)) 0 then (state, [])
  else
    let s1 := resetCancel state in
    if sortEnabled state && Nat.eqb (List.length (sortRules state)) 0
    then (setStatus noRules s1, [Status noRules])
    else
      let s2 := set_isProcessing true s1 in
      let playlistIds := selectedPlaylistIds state in
      let started := startAt s2 w in
      (match playlistIds with
       | playlistId :: _ =>
           setStatus (scanningText started 0 (List.length playlistIds) playlistId) s2
       | [] => s2
       end,
       performScanLoop started playlistIds).

(** *** The button of [ActionButtons.tsx]

    While a run is processing the button is STOP / CANCEL; otherwise it is
    the Run button, [disabled={selectedCount === 0}], and [onRun] is
    [handleRunProcess], which has no other caller. *)
Inductive button :=
| StopButton
| RunButton (disabled : bool).

Definition actionButton (processing : bool) (selectedCount : nat) : button :=
  if processing then StopButton else RunButton (Nat.eqb selectedCount 0).

(** A click on Run, where the page as rendered from [state] lets one click
    it. *)
Definition clickRun (w : World) (state : AppState)
  : option (AppState * list event) :=
  match actionButton (isProcessing state) (List.length (selectedPlaylistIds state)) with
  | RunButton false => Some (handleRunProcess w state)
  | _ => None
  end.

(** *** Observations on a trace *)

(** The playlists scanned, in order: those [scan_playlist] is invoked
    for. *)
Fixpoint scanned (tr : list event) : list string :=
  match tr with
  | [] => []
  | InvokeScan a :: rest => scan_playlistId a :: scanned rest
  | _ :: rest => scanned rest
  end.

(** The pauses taken, in order. *)
Fixpoint waits (tr : list event) : list Z :=
  match tr with
  | [] => []
  | Sleep ms :: rest => ms :: waits rest
  | _ :: rest => waits rest
  end.

(** The error log: message and error text of every [console.error]. *)
Fixpoint errorLog (tr : list event) : list (string * string) :=
  match tr with
  | [] => []
  | ConsoleError msg e :: rest => (msg, e) :: errorLog rest
  | _ :: rest => errorLog rest
  end.

(** The status texts shown, in order. *)
Fixpoint statuses (tr : list event) : list string :=
  match tr with
  | [] => []
  | Status text :: rest => text :: statuses rest
  | _ :: rest => statuses rest
  end.

(** The remote calls issued. *)
Definition isRemote (ev : event) : bool :=
  match ev with
  | InvokeScan _ | InvokeApply _ => true
  | _ => false
  end.

Definition remoteCalls (tr : list event) : list event := filter isRemote tr.

(** Is [playlistId] scanned again after some pause? *)
Fixpoint scannedAfterPause (playlistId : string) (tr : list event) : bool :=
  match tr with
  | [] => false
  | Sleep _ :: rest =>
      existsb (String.eqb playlistId) (scanned rest)
      || scannedAfterPause playlistId rest
  | _ :: rest => scannedAfterPause playlistId rest
  end.

(** The error the [try] of iteration [i] ends with, if any. *)
Definition raised (w : World) (i total : nat) (playlistId : string) : option string :=
  thrown (tryBlock w i total playlistId).

(** The command that fails in iteration [i] and its error, read off the
    answers: the scan, or the apply when the scan found nothing to review
    and the playlist was sorted. *)
Definition failure (w : World) (i : nat) : option (string * string) :=
  match scanReply w i with
  | inl e => Some ("scan_playlist", e)
  | inr [] => None
  | inr (result :: _) =>
      if Nat.ltb 0 (List.length (changes result)) then None
      else if sorted (stats result) && sortEnabled (storeAt w i)
           then match applyReply w i with
                | Some e => Some ("apply_changes", e)
                | None => None
                end
           else None
  end.

(** What [invoke] logs for a rejected command, and what the [catch] clause
    logs for the playlist. *)
Definition wrapperLog (w : World) (cmd e : string) : list (string * string) :=
  if desktop w then [(failedMessage cmd, e)] else [].

Definition handlerLog (playlistId e : string) : list (string * string) :=
  if Js.includes "429" e then [] else [(logMessage playlistId, e)].

(** The log entries iteration [i] owes. *)
Definition logOf (w : World) (i : nat) (playlistId : string)
  : list (string * string) :=
  match failure w i with
  | Some (cmd, e) => (wrapperLog w cmd e ++ handlerLog playlistId e)%list
  | None => []
  end.

(** The entries of a log that are written against [playlistId]. *)
Definition against (playlistId : string) (log : list (string * string))
  : list (string * string) :=
  filter (fun entry => String.eqb (fst entry) (logMessage playlistId)) log.

(** The pause iteration [i] takes. *)
Definition waitOf (w : World) (total i : nat) (playlistId : string) : list Z :=
  match raised w i total playlistId with
  | Some e => if Js.includes "429" e then [5000] else []
  | None => []
  end.

(** [f] applied to every element with its index, from [i] on. *)
Fixpoint flatMapFrom {A B} (f : nat -> A -> list B) (i : nat) (l : list A) : list B :=
  match l with
  | [] => []
  | a :: rest => (f i a ++ flatMapFrom f (S i) rest)%list
  end.

Definition neverCancelled (w : World) : Prop :=
  forall i, shouldCancel (storeAt w i) = false.

(** *** Back ends for examples

    Two desktop back ends answer every scan but the first with an empty
    result; the first scan is rejected, by a rate limit that names a retry
    delay in one and by a missing playlist in the other.  The third world is
    a browser.  Nobody cancels. *)

Definition quietStore : AppState := initialState "r1" "r2" "r3" "r4".

Definition rateLimitedOnce : World :=
  mkWorld (fun _ => quietStore) (fun _ => 0%nat) 0%nat true
    (fun i => match i with
              | O => inl "HTTP 429: retry after 30 seconds"
              | _ => inr []
              end)
    (fun _ => None).

Definition failsOnce : World :=
  mkWorld (fun _ => quietStore) (fun _ => 0%nat) 0%nat true
    (fun i => match i with
              | O => inl "Playlist not found"
              | _ => inr []
              end)
    (fun _ => None).

Definition inBrowser : World :=
  mkWorld (fun _ => quietStore) (fun _ => 0%nat) 0%nat false
    (fun _ => inr []) (fun _ => None).

(** The user cancels while the second playlist is scanned. *)
Definition cancelledInSecond : World :=
  mkWorld (fun i => match i with
                    | 0%nat | 1%nat => quietStore
                    | _ => cancelProcessing quietStore
                    end)
    (fun _ => 0%nat) 0%nat true (fun _ => inr []) (fun _ => None).


(** *** Further observations *)

(** The results queued for review and the applies issued, in order. *)
Fixpoint enqueued (tr : list event) : list ScanResult :=
  match tr with
  | [] => []
  | Enqueue r :: rest => r :: enqueued rest
  | _ :: rest => enqueued rest
  end.

Fixpoint applies (tr : list event) : list ApplyArgs :=
  match tr with
  | [] => []
  | InvokeApply a :: rest => a :: applies rest
  | _ :: rest => applies rest
  end.

(** What the loop may do without asking: an apply it issues carries no
    change at all and is made with sorting on, and what it queues for review
    has changes to review. *)
Definition cautious (ev : event) : Prop :=
  match ev with
  | InvokeApply a =>
      approvedChanges a = [] /\ rejectedChanges a = [] /\ apply_sortEnabled a = true
  | Enqueue r => changes r <> []
  | _ => True
  end.

End Scan.

(* ===================================================================== *)
(** ** Run now (Dashboard.tsx) *)
(* ===================================================================== *)

Module Dashboard.

(** A string field of a JSON answer that may be missing or [null]. *)
Inductive text :=
| Missing
| Null
| Text (s : string).

(** The fields of [RunHistory] the page reads. *)
Record RunHistory := mkHistory {
  h_id : string;
  config_id : string;
  config_name : string;
  status : string;
  error_message : text;
  triggered_by : string
}.

(** The React state of the page that [handleRunNow] touches, and the run
    history it shows. *)
Record Dash := mkDash {
  runningId : option string;
  statusMessage : option string;
  history : list RunHistory
}.

Definition initial : Dash := mkDash None None [].

Definition setRunningId (v : option string) (st : Dash) : Dash :=
  mkDash v (statusMessage st) (history st).
Definition setStatusMessage (v : option string) (st : Dash) : Dash :=
  mkDash (runningId st) v (history st).
Definition setHistory (v : list RunHistory) (st : Dash) : Dash :=
  mkDash (runningId st) (statusMessage st) v.

(** What a handler does to the outside:
    [e.preventDefault()], the POST to [/api/configs/id/run],
    [setInterval(..., 2000)] for a history id, [clearInterval],
    [fetch('/api/history?limit=20')], [alert], [console.error],
    [loadData()] and [setTimeout(() => setStatusMessage(null), ms)]. *)
Inductive effect :=
| PreventDefault
| PostRun (id : string)
| StartPolling (historyId : string)
| StopPolling
| Alert (msg : string)
| ConsoleError (msg : string)
| LoadData
| ClearStatusLater (ms : Z).

(** The answer to the POST: an exception in [fetch] or [res.json()], a
    response that is not ok, or the initial history entry. *)
Inductive answer :=
| Failed
| NotOk (code : Z) (detail : option string)
| Ok (initialHistory : RunHistory).

(** The answer to one history poll. *)
Inductive pollAnswer :=
| PollFailed
| PollNotOk
| PollOk (historyList : list RunHistory).

(** Truthiness of [string | null]. *)
Definition truthy (o : option string) : bool :=
  match o with
  | Some s => Js.truthy s
  | None => false
  end.

(** [handleRunNow] up to its first [await].  The handler reads [runningId]
    as rendered; the page is taken to have re-rendered since the last
    state change. *)
Definition handleRunNow (id : string) (st : Dash) : Dash * list effect :=
  if truthy (runningId st) then (st, [PreventDefault])
  else (setRunningId (Some id) (setStatusMessage None st),
        [PreventDefault; PostRun id]).

(** The Run button of every config is [disabled={!!runningId}]: a click
    reaches [handleRunNow] only while no run is tracked. *)
Definition runDisabled (st : Dash) : bool := truthy (runningId st).

Definition clickRun (id : string) (st : Dash) : option (Dash * list effect) :=
  if runDisabled st then None else Some (handleRunNow id st).

(** [loadData] once [/api/history?limit=10] is answered: the page shows the
    history the server keeps, and writes none of its own. *)
Definition loaded (historyData : list RunHistory) (st : Dash) : Dash :=
  setHistory historyData st.

(** [err.detail || 'Internal Server Error'] *)
Definition detailOr (detail : option string) : string :=
  match detail with
  | Some d => if Js.truthy d then d else "Internal Server Error"
  | None => "Internal Server Error"
  end.

(** [handleRunNow] once the POST is answered. *)
Definition answered (a : answer) (st : Dash) : Dash * list effect :=
  match a with
  | Failed =>
      (setRunningId None st,
       [ConsoleError "Failed to run config:";
        Alert "Network Error: Failed to reach the server. Check if your Unraid IP/port is correct."])
  | NotOk code detail =>
      let msg := detailOr detail in
      (setRunningId None st,
       [Alert (if code =? 429 then "Spotify Rate Limit Active: " ++ msg
               else "Run Failed (" ++ Js.string_of_Z code ++ "): " ++ msg)])
  | Ok initialHistory => (st, [StartPolling (h_id initialHistory)])
  end.

Definition maxAttempts : nat := 120.

Definition quote : string := String (ascii_of_nat 34) EmptyString.

(** A field as a template literal prints it. *)
Definition printed (t : text) : string :=
  match t with
  | Missing => "undefined"
  | Null => "null"
  | Text s => s
  end.

(** The [try] of one run of the interval callback. *)
Definition pollBody (initialHistory : RunHistory) (a : pollAnswer) (st : Dash)
  : Dash * list effect :=
  match a with
  | PollFailed => (st, [ConsoleError "Polling error"])
  | PollNotOk => (st, [])
  | PollOk historyList =>
      match find (fun h => String.eqb (h_id h) (h_id initialHistory)) historyList with
      | Some entry =>
          if String.eqb (status entry) "success" then
            (setStatusMessage
               (Some ("Successfully updated " ++ quote
                      ++ config_name initialHistory ++ quote))
               (setRunningId None st),
             [StopPolling; ClearStatusLater 5000; LoadData])
          else if String.eqb (status entry) "failed" then
            (setRunningId None st,
             [StopPolling;
              Alert ("Update Failed: " ++ printed (error_message entry));
              LoadData])
          else (st, [])
      | None => (st, [])
      end
  end.

(** One run of the interval callback; [attempts] is the counter after its
    increment. *)
Definition poll (initialHistory : RunHistory) (attempts : nat) (a : pollAnswer)
  (st : Dash) : Dash * list effect :=
  let '(st1, eff1) := pollBody initialHistory a st in
  if Nat.leb maxAttempts attempts then
    (setRunningId None st1,
     (eff1 ++ [StopPolling;
               Alert "Operation timed out (check history for status)";
               LoadData])%list)
  else (st1, eff1).

(** Several clicks on Run buttons in a row, before any answer arrives; a
    click on a disabled button does nothing. *)
Fixpoint clicks (ids : list string) (st : Dash) : Dash * list effect :=
  match ids with
  | [] => (st, [])
  | id :: rest =>
      match clickRun id st with
      | None => clicks rest st
      | Some (st1, eff1) =>
          let '(st2, eff2) := clicks rest st1 in
          (st2, (eff1 ++ eff2)%list)
      end
  end.

(** The runs started: the config ids POSTed. *)
Fixpoint started (effs : list effect) : list string :=
  match effs with
  | [] => []
  | PostRun id :: rest => id :: started rest
  | _ :: rest => started rest
  end.


(** *** Observations on a poll *)

(** Does the polled history show the run neither succeeded nor failed?  So
    it is when the fetch fails, the entry is missing, or its status is
    neither ['success'] nor ['failed']. *)
Definition stillRunning (initialHistory : RunHistory) (a : pollAnswer) : bool :=
  match a with
  | PollOk historyList =>
      match find (fun h => String.eqb (h_id h) (h_id initialHistory)) historyList with
      | Some entry =>
          negb (String.eqb (status entry) "success")
          && negb (String.eqb (status entry) "failed")
      | None => true
      end
  | _ => true
  end.

Definition isStop (e : effect) : bool :=
  match e with StopPolling => true | _ => false end.

Definition isAlert (e : effect) : bool :=
  match e with Alert _ => true | _ => false end.

End Dashboard.

(* ===================================================================== *)
(** ** The run registry of the server (from the specification) *)
(* ===================================================================== *)

(** The dashboard only asks for a run and then polls the history.  Whether
    a run starts, and what the history records, is decided by the server
    behind [/api/configs/id/run] and by its scheduler; neither is among the
    sources.  This module models them after the specification (its
    sections on the scheduler, on concurrency and on the data model). *)
Module Runs.

(** Modelled from the spec: the status of a run and who triggered it, as
    the data model lists them; the server types are missing. *)
Inductive status := running | success | failed.

Inductive origin := manual | schedule.

(** Modelled from the spec: the [RunHistory] record of the server, which is
    not among the sources, with the fields the invariant is about: the
    config, the status, who triggered the run and the error message. *)
Record RunHistory := mkRun {
  configId : string;
  run_status : status;
  triggeredBy : origin;
  errorMessage : option string
}.

(** Modelled from the spec: what the server keeps, the mutual-exclusion
    markers keyed by config id and the run history, oldest entry first. *)
Record Registry := mkRegistry {
  markers : list string;
  history : list RunHistory
}.

Definition empty : Registry := mkRegistry [] [].

Definition marked (cfg : string) (reg : Registry) : bool :=
  existsb (String.eqb cfg) (markers reg).

Definition isRunning (h : RunHistory) : bool :=
  match run_status h with
  | running => true
  | _ => false
  end.

(** The message of a skipped trigger; the specification asks for the entry
    and leaves its wording open. *)
Definition skippedMessage : string :=
  "Skipped: a run of this config is already in flight".

(** Modelled from the spec: a trigger for [cfg], by Run now or by the
    scheduler; the server code is missing.  The marker is checked and set
    in one step.  With the marker up the trigger is skipped: the history
    gets a failed entry that says so and nothing is started or kept for
    later.  Otherwise the marker goes up and the run starts, with an entry
    in status [running]. *)
Definition trigger (cfg : string) (who : origin) (reg : Registry) : Registry :=
  if marked cfg reg
  then mkRegistry (markers reg)
         (history reg ++ [mkRun cfg failed who (Some skippedMessage)])%list
  else mkRegistry (cfg :: markers reg)
         (history reg ++ [mkRun cfg running who None])%list.

(** The final status of an entry: a running entry of [cfg] succeeds, or
    fails with the error; the other entries stay as they are. *)
Definition settle (cfg : string) (error : option string) (h : RunHistory)
  : RunHistory :=
  if String.eqb (configId h) cfg && isRunning h
  then mkRun (configId h)
         (match error with Some _ => failed | None => success end)
         (triggeredBy h) error
  else h.

(** Modelled from the spec: the end of the run of [cfg], with an error on
    failure or cancellation; the server code is missing.  The marker is
    cleared and the running entry gets its final status. *)
Definition finish (cfg : string) (error : option string) (reg : Registry)
  : Registry :=
  mkRegistry (filter (fun c => negb (String.eqb c cfg)) (markers reg))
    (map (settle cfg error) (history reg)).

(** What happens to the registry, one step at a time. *)
Inductive step :=
| Trigger (cfg : string) (who : origin)
| Finish (cfg : string) (error : option string).

Definition act (reg : Registry) (st : step) : Registry :=
  match st with
  | Trigger cfg who => trigger cfg who reg
  | Finish cfg error => finish cfg error reg
  end.

Definition play (steps : list step) (reg : Registry) : Registry :=
  fold_left act steps reg.

(** The runs of [cfg] in flight: its history entries in status [running]. *)
Definition inFlight (cfg : string) (reg : Registry) : list RunHistory :=
  filter (fun h => String.eqb (configId h) cfg && isRunning h) (history reg).

(** The marker of a config is up exactly while a run of it is in flight,
    and there is at most one such run. *)
Definition consistent (reg : Registry) : Prop :=
  forall cfg,
    (marked cfg reg = true <-> inFlight cfg reg <> []) /\
    (List.length (inFlight cfg reg) <= 1)%nat.

(** The entry a skipped trigger leaves. *)
Definition skipped (cfg : string) (who : origin) : RunHistory :=
  mkRun cfg failed who (Some skippedMessage).

End Runs.

(* ===================================================================== *)
(** ** The review queue (App.tsx) *)
(* ===================================================================== *)

Module Review.
Import Store Scan.

Inductive ModalType :=
| backup | history | ignored | exportAuto | exportCsv | review | compare
| m3u | schedules | dynamic_edit | app_settings | change_port.

(** The React state the reviews live in. *)
Record State := mkReview {
  activeModal : option ModalType;
  reviewQueue : list ScanResult;
  activeReview : option ScanResult
}.

Definition initial : State := mkReview None [] None.

Definition showsReview (m : option ModalType) : bool :=
  match m with
  | Some review => true
  | _ => false
  end.

(** The consumer effect: with no review active, a result waiting and the
    review dialog not open, take the first result of the queue and open the
    dialog on it. *)
Definition consumer (st : State) : State :=
  match activeReview st, reviewQueue st with
  | None, next :: rest =>
      if showsReview (activeModal st) then st
      else mkReview (Some review) rest (Some next)
  | _, _ => st
  end.

(** [setReviewQueue(prev => [...prev, result])] of the scan loop. *)
Definition enqueue (result : ScanResult) (st : State) : State :=
  mkReview (activeModal st) (reviewQueue st ++ [result])%list (activeReview st).

(** [setActiveModal(m)] of the buttons, tray events and dialogs. *)
Definition setActiveModal (m : option ModalType) (st : State) : State :=
  mkReview m (reviewQueue st) (activeReview st).

Definition closeReviewModal (st : State) : State :=
  mkReview None (reviewQueue st) None.

Definition handleCancelReview := closeReviewModal.

(** The approved and the rejected changes of a review. *)
Definition approvedOf (approvedIds : list string) (r : ScanResult) : list ReviewChange :=
  filter (fun c => includes (change_id c) approvedIds) (changes r).
Definition rejectedOf (approvedIds : list string) (r : ScanResult) : list ReviewChange :=
  filter (fun c => negb (includes (change_id c) approvedIds)) (changes r).

(** [handleApplyReview(approvedIds)]; [inTauri] tells whether the page runs
    in Tauri, [failure] is the rejection by Tauri of [apply_changes], if
    any, [processing] the [isProcessing] the component rendered with and
    [store] the store it reads the sort settings from.  The [console.error]
    of the [catch] clause takes one argument. *)
Definition handleApplyReview (inTauri : bool) (approvedIds : list string)
  (failure : option string) (processing : bool) (store : AppState) (st : State)
  : State * list event :=
  match activeReview st with
  | None => (st, [])
  | Some r =>
      let call :=
        InvokeApply (mkApplyArgs (playlist_id r) (approvedOf approvedIds r)
                       (rejectedOf approvedIds r) (sortRules store) (sortEnabled store)) in
      (closeReviewModal st,
       trace
         (emit (Status ("Applying changes to " ++ name r ++ "...")) ;;;
          catch
            (invoke inTauri "apply_changes" call (rejection failure) ;;;
             emit (Status (if negb processing
                              && Nat.eqb (List.length (reviewQueue st)) 0
                           then "All reviews completed and changes applied."
                           else "Saved changes to " ++ name r)))
            (fun e =>
               emit (ConsoleError ("Error applying changes: " ++ e) EmptyString) ;;;
               emit (Status ("Error applying changes: " ++ e)))))
  end.

(** What can happen to the review state, one step at a time. *)
Inductive action :=
| Enq (result : ScanResult)
| Effect
| Close
| Modal (m : option ModalType).

Definition act (st : State) (a : action) : State :=
  match a with
  | Enq result => enqueue result st
  | Effect => consumer st
  | Close => closeReviewModal st
  | Modal m => setActiveModal m st
  end.

(** The result a step brings up for review, if it does. *)
Definition broughtUp (st : State) (a : action) : list ScanResult :=
  match a, activeReview st, activeReview (act st a) with
  | Effect, None, Some r => [r]
  | _, _, _ => []
  end.

(** Play a series of steps: the final state and the results brought up for
    review on the way, in order. *)
Fixpoint play (acts : list action) (st : State) : State * list ScanResult :=
  match acts with
  | [] => (st, [])
  | a :: rest =>
      let '(st', shown) := play rest (act st a) in
      (st', (broughtUp st a ++ shown)%list)
  end.

(** The results a series of steps queues, in order. *)
Fixpoint queuedBy (acts : list action) : list ScanResult :=
  match acts with
  | [] => []
  | Enq r :: rest => r :: queuedBy rest
  | _ :: rest => queuedBy rest
  end.

End Review.

(* ===================================================================== *)
(** ** The playlist list of the desktop app (PlaylistSection.tsx) *)
(* ===================================================================== *)

Module PlaylistSection.
Import Store.

(** The values of a [Map] filled with [if (!unique.has(p.id))
    unique.set(p.id, p)]: the first playlist of each id, in order of first
    appearance.  [seen] are the keys set so far. *)
Fixpoint dedupe (seen : list string) (l : list Playlist) : list Playlist :=
  match l with
  | [] => []
  | p :: rest =>
      if includes (pl_id p) seen then dedupe seen rest
      else p :: dedupe (pl_id p :: seen) rest
  end.

(** [[...new Set(l)]]: the first occurrence of each string, in order. *)
Fixpoint uniq (seen : list string) (l : list string) : list string :=
  match l with
  | [] => []
  | x :: rest =>
      if includes x seen then uniq seen rest
      else x :: uniq (x :: seen) rest
  end.

(** The [switch (filterType)]; 'All' and any other value filter nothing. *)
Definition passes (filterType : string) (p : Playlist) : bool :=
  if String.eqb filterType "Editable Only" then editable p
  else if String.eqb filterType "Owned by Me"
       then String.eqb (owner p) "me" || editable p
  else if String.eqb filterType "Collaborative" then collaborative p
  else if String.eqb filterType "Public" then isPublic p
  else if String.eqb filterType "Private" then negb (isPublic p)
  else true.

(** The search box, skipped when empty. *)
Definition matches (searchQuery : string) (p : Playlist) : bool :=
  if Js.truthy searchQuery
  then Js.includes (Js.toLowerCase searchQuery) (Js.toLowerCase (pl_name p))
  else true.

Definition filteredPlaylists (s : AppState) : list Playlist :=
  filter (matches (searchQuery s))
    (filter (passes (filterType s)) (dedupe [] (playlists s))).

(** [l.slice(start, stop)] for indices that are not negative. *)
Definition slice {A} (start stop : nat) (l : list A) : list A :=
  firstn (stop - start) (skipn start l).

(** The ids of the rows from one index to another, both included. *)
Definition rangeIds (a b : nat) (rows : list Playlist) : list string :=
  map pl_id (slice (Nat.min a b) (Nat.max a b + 1) rows).

(** The state and refs of the component that the mouse handlers use. *)
Record Drag := mkDrag {
  lastClickedIndex : option nat;
  isDragging : bool;
  dragStartIndex : option nat;
  dragSnapshot : list string;
  dragMode : bool
}.

Definition idle : Drag := mkDrag None false None [] true.

(** [handleMouseDown(index, event)] on the rows [rows]; [None] when
    [rows[index]] is [undefined] and reading its id throws. *)
Definition handleMouseDown (index : nat) (leftButton shiftKey : bool)
  (rows : list Playlist) (d : Drag) (s : AppState) : option (Drag * AppState) :=
  if negb leftButton then Some (d, s)
  else match nth_error rows index with
       | None => None
       | Some row =>
           let playlistId := pl_id row in
           let isSelected := includes playlistId (selectedPlaylistIds s) in
           let selection :=
             match shiftKey, lastClickedIndex d with
             | true, Some last => rangeIds last index rows
             | _, _ =>
                 if negb isSelected
                 then (selectedPlaylistIds s ++ [playlistId])%list
                 else filter (fun id => negb (String.eqb id playlistId))
                        (selectedPlaylistIds s)
             end in
           Some (mkDrag (Some index) true (Some index) (selectedPlaylistIds s)
                   (negb isSelected),
                 setSelectedPlaylistIds selection s)
       end.

(** [handleMouseEnter(index)] *)
Definition handleMouseEnter (index : nat) (rows : list Playlist) (d : Drag)
  (s : AppState) : AppState :=
  match isDragging d, dragStartIndex d with
  | true, Some start =>
      let range := rangeIds start index rows in
      if dragMode d
      then setSelectedPlaylistIds (uniq [] (dragSnapshot d ++ range)) s
      else setSelectedPlaylistIds
             (filter (fun id => negb (includes id range)) (dragSnapshot d)) s
  | _, _ => s
  end.

Definition handleGlobalMouseUp (d : Drag) : Drag :=
  mkDrag (lastClickedIndex d) false None (dragSnapshot d) (dragMode d).

Definition handleSelectAll (s : AppState) : AppState :=
  setSelectedPlaylistIds
    (uniq [] (selectedPlaylistIds s ++ map pl_id (filteredPlaylists s))) s.

Definition handleDeselectAll (s : AppState) : AppState :=
  setSelectedPlaylistIds [] s.

(** The names shown in the selection badge. *)
Definition selectedNames (s : AppState) : list string :=
  map pl_name
    (filter (fun p => includes (pl_id p) (selectedPlaylistIds s)) (playlists s)).

End PlaylistSection.

(* ===================================================================== *)
(** ** The playlist picker of the server front end (PlaylistSelector.tsx) *)
(* ===================================================================== *)

Module Selector.

Record PlaylistInfo := mkInfo {
  id : string;
  name : string;
  owner : string;
  editable : bool;
  track_count : Z;
  image_url : option string
}.

(** The filter of the list: not excluded, and the name holds the search
    text, case aside. *)
Definition shown (excludeIds : list string) (search : string) (p : PlaylistInfo) : bool :=
  negb (Store.includes (id p) excludeIds)
  && Js.includes (Js.toLowerCase search) (Js.toLowerCase (name p)).

(** Is the playlist among the chosen ones ([safeValue.includes(p.id)])? *)
Definition chosen (value : list string) (p : PlaylistInfo) : bool :=
  Store.includes (id p) value.

(** The comparator handed to [sort]: selected playlists first. *)
Definition compare (value : list string) (a b : PlaylistInfo) : Z :=
  let aSelected := Store.includes (id a) value in
  let bSelected := Store.includes (id b) value in
  if aSelected && negb bSelected then -1
  else if negb aSelected && bSelected then 1
  else 0.

(** [Array.prototype.sort] is stable; a stable insertion sort stands for
    it.  An element goes before the first one it does not compare greater
    than. *)
Fixpoint insert {A} (cmp : A -> A -> Z) (x : A) (l : list A) : list A :=
  match l with
  | [] => [x]
  | y :: rest => if cmp x y <=? 0 then x :: y :: rest else y :: insert cmp x rest
  end.

Definition sort {A} (cmp : A -> A -> Z) (l : list A) : list A :=
  fold_right (insert cmp) [] l.

Definition filtered (value excludeIds : list string) (search : string)
  (playlists : list PlaylistInfo) : list PlaylistInfo :=
  sort (compare value) (filter (shown excludeIds search) playlists).

(** The ids [handleSelect(id)] hands to [onChange]. *)
Definition handleSelect (multiple : bool) (value : list string) (id : string)
  : list string :=
  if multiple then
    if Store.includes id value
    then filter (fun v => negb (String.eqb v id)) value
    else (value ++ [id])%list
  else [id].

End Selector.

(* ===================================================================== *)
(** * Properties *)
(* ===================================================================== *)

(** ** JavaScript primitives on examples *)

Example split_cron : Js.split " " "0 */6 * * *" = ["0"; "*/6"; "*"; "*"; "*"].
Proof. reflexivity. Qed.

Example split_keeps_empty_fields : Js.split " " "a  b" = ["a"; EmptyString; "b"].
Proof. reflexivity. Qed.

Example parseInt_examples :
  Js.parseInt "6" = Some 6 /\ Js.parseInt "*" = None /\
  Js.parseInt " -12abc" = Some (-12) /\ Js.parseInt "0x1f" = Some 31 /\
  Js.parseInt EmptyString = None.
Proof. repeat split; reflexivity. Qed.

Lemma split_nonempty (sep : ascii) (s : string) : Js.split sep s <> [].
Proof.
  destruct s as [|c rest]; simpl; [discriminate|].
  destruct (Ascii.eqb c sep); [discriminate|].
  destruct (Js.split sep rest); discriminate.
Qed.

(** ** Rate-limit banner *)

Example secondsOf_examples :
  Governor.secondsOf (Some "Rate limited. Retry in 90000 seconds") = 90000 /\
  Governor.secondsOf (Some "Too many requests") = 60 /\
  Governor.secondsOf None = 60.
Proof. repeat split; reflexivity. Qed.

Example timeStr_examples :
  Governor.timeStr 90000 = "25h 0m 0s" /\ Governor.timeStr 60 = "1m 0s" /\
  Governor.timeStr 59 = "59s".
Proof. repeat split; reflexivity. Qed.

Lemma isSpotifyBan_threshold (waitTime : Z) :
  Governor.isSpotifyBan waitTime = (120 <? waitTime).
Proof.
  unfold Governor.isSpotifyBan, Governor.remaining.
  destruct (Z.ltb_spec 120 waitTime), (Z.ltb_spec 120 (Z.max 0 waitTime)); lia.
Qed.

(** C1: the banner splits on the 120-second threshold.  A remaining time of
    60 s is a "Local Safety Back-off", 90000 s is a "Spotify Account Lock",
    and exactly 120 s is on the back-off side: for every wait time the lock
    is shown exactly when the time is strictly above 120. *)
Theorem rate_limit_classification :
  Governor.title 60 = "Local Safety Back-off" /\
  Governor.title 90000 = "Spotify Account Lock" /\
  Governor.title 120 = "Local Safety Back-off" /\
  forall waitTime,
    Governor.title waitTime =
    if 120 <? waitTime then "Spotify Account Lock" else "Local Safety Back-off".
Proof.
  repeat split; try reflexivity.
  intros waitTime. unfold Governor.title.
  now rewrite isSpotifyBan_threshold.
Qed.

(** The countdown only moves towards the back-off side. *)
Lemma tick_keeps_backoff (waitTime : Z) :
  Governor.isSpotifyBan waitTime = false ->
  Governor.isSpotifyBan (Governor.tick waitTime) = false.
Proof.
  rewrite !isSpotifyBan_threshold. unfold Governor.tick.
  intros H. apply Z.ltb_ge in H. apply Z.ltb_ge. lia.
Qed.

(** ** Cron and the simple form *)

Section CronFacts.
Import Cron.

Example weekly_round_trip :
  updateCronFromSimple (parseCronToSimple "30 4 * * 1-5" initial) = "30 4 * * 1-5".
Proof. reflexivity. Qed.

(** C2: "0 */6 * * *" is read as the interval frequency with interval 6,
    whatever the editor held before, and writing that simple form back gives
    the same cron string. *)
Theorem every_six_hours_round_trip (st : simple) :
  simpleFreq (parseCronToSimple "0 */6 * * *" st) = interval /\
  simpleInterval (parseCronToSimple "0 */6 * * *" st) = 6 /\
  updateCronFromSimple (parseCronToSimple "0 */6 * * *" st) = "0 */6 * * *".
Proof. repeat split; reflexivity. Qed.

(** The final [else] leaves daily at 00:00. *)
Lemma fallback_when_no_branch (cron : string) (st : simple) :
  (5 <= List.length (fields cron))%nat ->
  takesBranch cron = false ->
  parseCronToSimple cron st = dailyMidnight.
Proof.
  intros Hlen Hno. unfold takesBranch in Hno.
  repeat (apply orb_false_iff in Hno; destruct Hno as [Hno ?]).
  unfold parseCronToSimple.
  destruct (Nat.ltb_spec (List.length (fields cron)) 5) as [Hlt|_]; [lia|].
  cbv zeta. rewrite Hno.
  repeat match goal with H : _ = false |- _ => rewrite H; clear H end.
  reflexivity.
Qed.

(** Which expressions those are: a month is given, or both a day of the
    month and a day of the week. *)
Lemma takesBranch_false_iff (cron : string) :
  takesBranch cron = false <->
  (star (field 3 (fields cron)) = false \/
   (star (field 2 (fields cron)) = false /\ star (field 4 (fields cron)) = false)).
Proof.
  unfold takesBranch, isHourly, isInterval, isDaily, isWeekly, isMonthly.
  cbv zeta.
  destruct (star (field 2 (fields cron))), (star (field 3 (fields cron))),
    (star (field 4 (fields cron)));
    rewrite ?andb_false_r, ?andb_true_r, ?orb_false_r, ?orb_true_r; simpl;
    intuition congruence.
Qed.

(** C10: with fewer than five space-separated fields the decomposition
    returns at once and leaves every simple-mode field as it was. *)
Theorem short_cron_leaves_simple_state (cron : string) (st : simple) :
  (List.length (fields cron) < 5)%nat ->
  parseCronToSimple cron st = st.
Proof.
  intros Hlen. unfold parseCronToSimple.
  destruct (Nat.ltb_spec (List.length (fields cron)) 5); [reflexivity | lia].
Qed.

Lemma short_cron_leaves_simple_state_witness :
  parseCronToSimple "0 0 * *" (mkSimple weekly 3 "12:34" "5" "9")
  = mkSimple weekly 3 "12:34" "5" "9".
Proof.
  apply (short_cron_leaves_simple_state "0 0 * *"). vm_compute. lia.
Defined.

End CronFacts.

(** ** The sort rules of the store *)

Section StoreFacts.
Import Store.

Lemma sortRules_set (l : list SortRule) (s : AppState) :
  sortRules (set_sortRules l s) = l.
Proof. reflexivity. Qed.

(** Removing by id drops at most one rule when the ids are distinct. *)
Lemma filter_id_length (id : string) (l : list SortRule) :
  NoDup (map rule_id l) ->
  (List.length l <= S (List.length (filter (fun r => negb (String.eqb (rule_id r) id)) l)))%nat.
Proof.
  induction l as [|r l IH]; simpl; intros Hnd; [lia|].
  inversion Hnd as [|x xs Hnotin Hnd']; subst.
  destruct (String.eqb_spec (rule_id r) id) as [Heq|Hne]; simpl.
  - assert (Hall : filter (fun r0 => negb (String.eqb (rule_id r0) id)) l = l).
    { apply forallb_filter_id. apply forallb_forall. intros r0 Hin.
      destruct (String.eqb_spec (rule_id r0) id) as [Heq0|]; [|reflexivity].
      exfalso. apply Hnotin. rewrite Heq, <- Heq0. now apply in_map. }
    rewrite Hall. lia.
  - specialize (IH Hnd'). lia.
Qed.

Lemma removeSortRule_length (id : string) (s : AppState) :
  (List.length (sortRules (removeSortRule id s)) <= List.length (sortRules s))%nat.
Proof.
  unfold removeSortRule.
  destruct (Nat.leb (List.length (sortRules s)) 1); [lia|].
  rewrite sortRules_set. apply filter_length_le.
Qed.

Lemma updateSortRule_length (id : string) (u : PartialRule) (s : AppState) :
  List.length (sortRules (updateSortRule id u s)) = List.length (sortRules s).
Proof. unfold updateSortRule. rewrite sortRules_set. apply length_map. Qed.

Lemma addSortRule_length (fresh : string) (rule : option PartialRule) (s : AppState) :
  (List.length (sortRules s) <= 8 ->
   List.length (sortRules (addSortRule fresh rule s)) <= 8)%nat.
Proof.
  intros H. unfold addSortRule.
  destruct (Nat.leb_spec 8 (List.length (sortRules s))); [exact H|].
  rewrite sortRules_set, length_app. simpl. lia.
Qed.

Lemma apply_keeps_cap (s : AppState) (o : op) :
  (List.length (sortRules s) <= 8 -> List.length (sortRules (apply s o)) <= 8)%nat.
Proof.
  intros H. destruct o as [fresh rule|id|id u]; unfold apply.
  - now apply addSortRule_length.
  - pose proof (removeSortRule_length id s). lia.
  - now rewrite updateSortRule_length.
Qed.

Lemma run_keeps_cap (ops : list op) : forall s,
  (List.length (sortRules s) <= 8 -> List.length (sortRules (run ops s)) <= 8)%nat.
Proof.
  unfold run. induction ops as [|o ops IH]; simpl; intros s H; [exact H|].
  apply IH. now apply apply_keeps_cap.
Qed.

(** C9: the rule list is capped at 8.  [addSortRule] leaves a state with 8
    or more rules unchanged, and from the initial four rules no sequence of
    additions, removals and updates yields more than 8 rules. *)
Theorem sort_rules_capped_at_eight :
  (forall s fresh rule,
     (8 <= List.length (sortRules s))%nat -> addSortRule fresh rule s = s) /\
  (forall i1 i2 i3 i4 ops,
     (List.length (sortRules (run ops (initialState i1 i2 i3 i4))) <= 8)%nat).
Proof.
  split.
  - intros s fresh rule H. unfold addSortRule.
    destruct (Nat.leb_spec 8 (List.length (sortRules s))); [reflexivity | lia].
  - intros i1 i2 i3 i4 ops. apply run_keeps_cap. simpl. lia.
Qed.

(** Removal on distinct ids leaves a rule. *)
Lemma removeSortRule_nonempty (id : string) (s : AppState) :
  sortRules s <> [] -> NoDup (ruleIds s) ->
  sortRules (removeSortRule id s) <> [].
Proof.
  intros Hne Hnd. unfold removeSortRule.
  destruct (Nat.leb_spec (List.length (sortRules s)) 1) as [Hle|Hgt]; [exact Hne|].
  rewrite sortRules_set. pose proof (filter_id_length id (sortRules s) Hnd) as Hlen.
  intros Hnil. rewrite Hnil in Hlen. simpl in Hlen. lia.
Qed.

Lemma spliceOut_perm {A} (i : nat) : forall (l : list A) (x : A),
  nth_error l i = Some x -> Permutation l (x :: spliceOut i l).
Proof.
  unfold spliceOut. induction i as [|i IH]; intros [|a l] x H; try discriminate.
  - injection H as ->. apply Permutation_refl.
  - simpl in H. change (Permutation (a :: l) (x :: a :: (firstn i l ++ skipn (S i) l)%list)).
    eapply perm_trans; [apply perm_skip, (IH l x H) | apply perm_swap].
Qed.

Lemma spliceIn_perm {A} (i : nat) (x : A) (l : list A) :
  Permutation (x :: l) (spliceIn i x l).
Proof.
  unfold spliceIn. rewrite <- (firstn_skipn i l) at 1.
  apply Permutation_middle.
Qed.

(** The drag-and-drop reorder permutes the rules. *)
Lemma dragReorder_perm (src cur : nat) (s s' : AppState) :
  dragReorder src cur s = Some s' ->
  Permutation (sortRules s) (sortRules s').
Proof.
  unfold dragReorder. destruct (Nat.eqb src cur).
  - intros [= <-]. apply Permutation_refl.
  - destruct (nth_error (sortRules s) src) as [r|] eqn:Hnth; [|discriminate].
    intros [= <-]. unfold reorderSortRules. rewrite sortRules_set.
    eapply perm_trans; [apply (spliceOut_perm _ _ _ Hnth)|].
    apply spliceIn_perm.
Qed.

(** C8, amended: a non-empty rule list stays non-empty under removal when
    the rule ids are pairwise distinct, and removing from a one-rule list
    changes nothing; [reorderSortRules] installs the order it is given, so
    the list stays non-empty exactly when that order is, as it is for the
    drag-and-drop reorder, which permutes the rules. *)
Theorem sort_rules_stay_nonempty (s : AppState) :
  sortRules s <> [] ->
  (forall id, NoDup (ruleIds s) -> sortRules (removeSortRule id s) <> []) /\
  (forall id, List.length (sortRules s) = 1%nat -> removeSortRule id s = s) /\
  (forall newOrder, sortRules (reorderSortRules newOrder s) = newOrder) /\
  (forall src cur s', dragReorder src cur s = Some s' ->
     Permutation (sortRules s) (sortRules s') /\ sortRules s' <> []).
Proof.
  intros Hne. split; [|split; [|split]].
  - intros id Hnd. now apply removeSortRule_nonempty.
  - intros id Hlen. unfold removeSortRule. now rewrite Hlen.
  - reflexivity.
  - intros src cur s' Hdrag.
    pose proof (dragReorder_perm src cur s s' Hdrag) as Hperm.
    split; [exact Hperm|].
    intros Hnil. apply Hne. apply Permutation_nil.
    rewrite <- Hnil. now apply Permutation_sym.
Qed.

Lemma sort_rules_capped_at_eight_witness :
  addSortRule "r9" None
    (run [OpAdd "r5" None; OpAdd "r6" None; OpAdd "r7" None; OpAdd "r8" None]
       (initialState "r1" "r2" "r3" "r4"))
  = run [OpAdd "r5" None; OpAdd "r6" None; OpAdd "r7" None; OpAdd "r8" None]
      (initialState "r1" "r2" "r3" "r4").
Proof.
  apply (proj1 sort_rules_capped_at_eight). simpl. lia.
Defined.

(** C8 fails: two rules that carry the same id are both removed by one
    removal, and [reorderSortRules] accepts the empty order. *)
Lemma removal_can_empty_the_rules :
  sortRules (set_sortRules [mkRule "x" "Artist" false; mkRule "x" "Album" true]
               (initialState "r1" "r2" "r3" "r4")) <> [] /\
  sortRules (removeSortRule "x"
               (set_sortRules [mkRule "x" "Artist" false; mkRule "x" "Album" true]
                  (initialState "r1" "r2" "r3" "r4"))) = [] /\
  sortRules (reorderSortRules [] (initialState "r1" "r2" "r3" "r4")) = [].
Proof. repeat split; simpl; discriminate. Qed.

Lemma sort_rules_stay_nonempty_witness :
  sortRules (removeSortRule "r2" (initialState "r1" "r2" "r3" "r4")) <> [] /\
  removeSortRule "r1" (set_sortRules [mkRule "r1" "Artist" false]
                         (initialState "r1" "r2" "r3" "r4"))
  = set_sortRules [mkRule "r1" "Artist" false] (initialState "r1" "r2" "r3" "r4").
Proof.
  split.
  - apply (sort_rules_stay_nonempty (initialState "r1" "r2" "r3" "r4")).
    + discriminate.
    + repeat constructor; simpl; intuition discriminate.
  - apply (sort_rules_stay_nonempty
             (set_sortRules [mkRule "r1" "Artist" false]
                (initialState "r1" "r2" "r3" "r4"))).
    + discriminate.
    + reflexivity.
Defined.

Example drag_first_rule_to_third_place :
  option_map ruleIds (dragReorder 0 2 (initialState "r1" "r2" "r3" "r4"))
  = Some ["r2"; "r3"; "r1"; "r4"].
Proof. reflexivity. Qed.

End StoreFacts.

(** ** The scan loop *)

Section ScanFacts.
Import Store Scan.

Lemma scanned_app (a b : list event) : scanned (a ++ b)%list = (scanned a ++ scanned b)%list.
Proof. induction a as [|[] a IH]; simpl; now rewrite ?IH. Qed.

Lemma waits_app (a b : list event) : waits (a ++ b)%list = (waits a ++ waits b)%list.
Proof. induction a as [|[] a IH]; simpl; now rewrite ?IH. Qed.

Lemma errorLog_app (a b : list event) : errorLog (a ++ b)%list = (errorLog a ++ errorLog b)%list.
Proof. induction a as [|[] a IH]; simpl; now rewrite ?IH. Qed.

(** In a browser neither command fails with a rate limit. *)
Lemma web_scan_is_no_rate_limit :
  Js.includes "429" (unsupported "scan_playlist") = false.
Proof. reflexivity. Qed.

Lemma web_apply_is_no_rate_limit :
  Js.includes "429" (unsupported "apply_changes") = false.
Proof. reflexivity. Qed.

(** Unfold one turn of the loop and split on where the page runs and on
    what the back end answers. *)
Ltac turn w i :=
  unfold waitOf, logOf, failure, wrapperLog, handlerLog, raised, thrown,
    iteration, tryBlock, invokeScan, invokeApply, invoke, scanReply,
    applyReply, rejection, handler, catch, bind, emit, ret, throw, trace;
  destruct (desktop w);
    [destruct (tauriScan w i) as [e|[|result others]]|];
  cbn [fst snd app];
  rewrite ?web_scan_is_no_rate_limit, ?web_apply_is_no_rate_limit;
  repeat match goal with
         | |- context [if ?c then _ else _] => destruct c; cbn [fst snd app]
         | |- context [match tauriApply w i with _ => _ end] =>
             destruct (tauriApply w i); cbn [fst snd app]
         end.

(** Every turn scans its playlist once. *)
Lemma iteration_scanned (w : World) (i total : nat) (p : string) :
  scanned (trace (iteration w i total p)) = [p].
Proof. turn w i; reflexivity. Qed.

(** A turn pauses only after a rate limit, and then for five seconds. *)
Lemma iteration_waits (w : World) (i total : nat) (p : string) :
  waits (trace (iteration w i total p)) = waitOf w total i p.
Proof. turn w i; reflexivity. Qed.

(** A turn logs only its own failure: the entry of [invoke] in Tauri, and
    the entry for the playlist when the failure is no rate limit. *)
Lemma iteration_errorLog (w : World) (i total : nat) (p : string) :
  errorLog (trace (iteration w i total p)) = logOf w i p.
Proof. turn w i; reflexivity. Qed.

(** A failed scan is the error of its turn. *)
Lemma raised_scan (w : World) (i total : nat) (p e : string) :
  scanReply w i = inl e -> raised w i total p = Some e.
Proof.
  unfold scanReply, raised, thrown, tryBlock, invokeScan, invoke, bind, emit, throw.
  destruct (desktop w); intros H; [now rewrite H | now injection H as <-].
Qed.

(** The error of a turn, read off the answers: that of the scan, or that of
    the apply when the scan found nothing to review and the playlist was
    sorted. *)
Lemma raised_spec (w : World) (i total : nat) (p : string) :
  raised w i total p =
  match scanReply w i with
  | inl e => Some e
  | inr [] => None
  | inr (result :: _) =>
      if Nat.ltb 0 (List.length (changes result)) then None
      else if sorted (stats result) && sortEnabled (storeAt w i)
           then applyReply w i
           else None
  end.
Proof. turn w i; reflexivity. Qed.

(** The error of a turn is the error of the command that failed in it. *)
Lemma raised_failure (w : World) (i total : nat) (p : string) :
  raised w i total p = option_map snd (failure w i).
Proof. turn w i; reflexivity. Qed.

(** Cancellation is checked before each turn: once the flag is up the loop
    reports it and starts no further scan. *)
Lemma loop_cancelled (w : World) (i total : nat) (p : string) (rest : list string) :
  shouldCancel (storeAt w i) = true ->
  loop w i total (p :: rest) = [Status "Cancelled execution."].
Proof. intros H. simpl. now rewrite H. Qed.

(** The turn of a rate-limited scan, event by event: the status of the
    turn, the call, the entry [invoke] logs, the rate-limit status and the
    pause. *)
Lemma iteration_rate_limited (w : World) (i total : nat) (p e : string) :
  scanReply w i = inl e -> Js.includes "429" e = true ->
  exists args,
    trace (iteration w i total p)
    = [Status (scanningText w i total p); InvokeScan args;
       ConsoleError (failedMessage "scan_playlist") e;
       Status "Rate limit hit (429). Pausing for 5 seconds..."; Sleep 5000]
    /\ scan_playlistId args = p.
Proof.
  intros Hreply H429.
  unfold scanReply in Hreply.
  unfold iteration, tryBlock, invokeScan, invoke, handler, catch, bind, emit,
    throw, trace.
  destruct (desktop w).
  - rewrite Hreply. cbn [fst snd app]. rewrite H429. cbn [fst snd app].
    eexists. split; reflexivity.
  - injection Hreply as <-. discriminate H429.
Qed.

(** Without cancellation the loop is its turns, one after the other. *)
Lemma loop_turns (w : World) (total : nat) (ids : list string) :
  neverCancelled w -> forall i,
  loop w i total ids
  = flatMapFrom (fun j p => trace (iteration w j total p)) i ids.
Proof.
  intros Hnc. induction ids as [|p ids IH]; intros i; simpl; [reflexivity|].
  now rewrite Hnc, IH.
Qed.

Lemma flatMapFrom_observe {B} (obs : list event -> list B)
  (Happ : forall a b, obs (a ++ b)%list = (obs a ++ obs b)%list) (Hnil : obs [] = [])
  (f : nat -> string -> list event) (ids : list string) : forall i,
  obs (flatMapFrom f i ids) = flatMapFrom (fun j p => obs (f j p)) i ids.
Proof.
  induction ids as [|p ids IH]; intros i; simpl; [exact Hnil|].
  now rewrite Happ, IH.
Qed.

Lemma flatMapFrom_ext {A B} (f g : nat -> A -> list B) (l : list A) :
  (forall j a, f j a = g j a) -> forall i, flatMapFrom f i l = flatMapFrom g i l.
Proof.
  intros H. induction l as [|a l IH]; intros i; simpl; [reflexivity|].
  now rewrite H, IH.
Qed.

Lemma flatMapFrom_singleton {A} (l : list A) : forall i,
  flatMapFrom (fun _ a => [a]) i l = l.
Proof. induction l as [|a l IH]; intros i; simpl; [reflexivity|]. now rewrite IH. Qed.

Lemma flatMapFrom_In {A B} (f : nat -> A -> list B) (b : B) (l : list A) : forall i,
  In b (flatMapFrom f i l) -> exists j a, In a l /\ In b (f j a).
Proof.
  induction l as [|a l IH]; intros i; simpl; [tauto|].
  intros H. apply in_app_or in H. destruct H as [H|H].
  - exists i, a. auto.
  - destruct (IH _ H) as (j & a' & Ha & Hb). exists j, a'. auto.
Qed.

(** What the loop leaves on the three observations. *)
Lemma performScanLoop_observed (w : World) (ids : list string) :
  neverCancelled w ->
  scanned (performScanLoop w ids) = ids /\
  waits (performScanLoop w ids) = flatMapFrom (waitOf w (List.length ids)) 0 ids /\
  errorLog (performScanLoop w ids) = flatMapFrom (logOf w) 0 ids.
Proof.
  intros Hnc. unfold performScanLoop.
  rewrite scanned_app, waits_app, errorLog_app, (loop_turns w _ ids Hnc).
  rewrite (flatMapFrom_observe scanned scanned_app eq_refl).
  rewrite (flatMapFrom_observe waits waits_app eq_refl).
  rewrite (flatMapFrom_observe errorLog errorLog_app eq_refl).
  rewrite (flatMapFrom_ext _ (fun _ p => [p])) by (intros; apply iteration_scanned).
  rewrite (flatMapFrom_ext _ (waitOf w (List.length ids))) by (intros; apply iteration_waits).
  rewrite (flatMapFrom_ext _ (logOf w)) by (intros; apply iteration_errorLog).
  rewrite flatMapFrom_singleton.
  destruct (Nat.ltb 0 (pendingEnd w)); simpl; now rewrite !app_nil_r.
Qed.

(** C3 fails: the first scan is rejected with a 429 that asks for 30
    seconds; the loop pauses 5 seconds, not 30, and never scans that
    playlist again. *)
Lemma rate_limited_scan_is_not_retried :
  scanReply rateLimitedOnce 0 = inl "HTTP 429: retry after 30 seconds" /\
  waits (performScanLoop rateLimitedOnce ["p1"; "p2"]) = [5000] /\
  scanned (performScanLoop rateLimitedOnce ["p1"; "p2"]) = ["p1"; "p2"] /\
  scannedAfterPause "p1" (performScanLoop rateLimitedOnce ["p1"; "p2"]) = false.
Proof. repeat split; reflexivity. Qed.

(** C3, amended: when nobody cancels, a turn whose call fails with an error
    text containing 429 pauses for a fixed 5 seconds, whatever delay the
    error names, and the loop moves on: every playlist of the list is
    scanned exactly once, in order, so the rate-limited one is not scanned
    again and the later ones still are. *)
Theorem rate_limit_pauses_and_moves_on (w : World) (ids : list string) :
  neverCancelled w ->
  scanned (performScanLoop w ids) = ids /\
  waits (performScanLoop w ids) = flatMapFrom (waitOf w (List.length ids)) 0 ids /\
  (forall ms, In ms (waits (performScanLoop w ids)) -> ms = 5000) /\
  (forall i p e, scanReply w i = inl e -> Js.includes "429" e = true ->
     waitOf w (List.length ids) i p = [5000]).
Proof.
  intros Hnc. destruct (performScanLoop_observed w ids Hnc) as (Hs & Hw & _).
  split; [exact Hs|]. split; [exact Hw|]. split.
  - intros ms Hin. rewrite Hw in Hin.
    apply flatMapFrom_In in Hin. destruct Hin as (j & p & _ & Hin).
    unfold waitOf in Hin. destruct (raised w j (List.length ids) p) as [e|]; [|contradiction].
    destruct (Js.includes "429" e); simpl in Hin; intuition.
  - intros i p e Hreply H429. unfold waitOf.
    now rewrite (raised_scan w i _ p e Hreply), H429.
Qed.

Lemma rate_limit_pauses_and_moves_on_witness :
  scanned (performScanLoop rateLimitedOnce ["p1"; "p2"]) = ["p1"; "p2"] /\
  waits (performScanLoop rateLimitedOnce ["p1"; "p2"])
  = flatMapFrom (waitOf rateLimitedOnce 2) 0 ["p1"; "p2"].
Proof.
  destruct (rate_limit_pauses_and_moves_on rateLimitedOnce ["p1"; "p2"])
    as (Hs & Hw & _); [intros i; reflexivity|].
  split; assumption.
Defined.

(** The entry of [invoke] is not an entry for a playlist. *)
Lemma wrapper_names_no_playlist (cmd p : string) :
  String.eqb (failedMessage cmd) (logMessage p) = false.
Proof. reflexivity. Qed.

Lemma string_length_app (a b : string) :
  String.length (a ++ b) = (String.length a + String.length b)%nat.
Proof. induction a as [|c a IH]; simpl; [reflexivity | now rewrite IH]. Qed.

Lemma string_app_cancel (tail : string) : forall a b,
  a ++ tail = b ++ tail -> a = b.
Proof.
  induction a as [|c a IH]; intros [|d b] H; cbn [String.append] in H.
  - reflexivity.
  - apply (f_equal String.length) in H. cbn [String.length] in H.
    rewrite string_length_app in H. lia.
  - apply (f_equal String.length) in H. cbn [String.length] in H.
    rewrite string_length_app in H. lia.
  - injection H as -> H. f_equal. now apply IH.
Qed.

(** The entry of the [catch] clause tells the playlists apart. *)
Lemma logMessage_inj (p q : string) : logMessage p = logMessage q -> p = q.
Proof.
  unfold logMessage. cbn [String.append]. intros [= H].
  now apply string_app_cancel in H.
Qed.

Lemma against_other (w : World) (cmd e p q : string) :
  q <> p -> against q (wrapperLog w cmd e ++ handlerLog p e) = [].
Proof.
  intros Hne. unfold against, wrapperLog, handlerLog.
  assert (Hq : String.eqb (logMessage p) (logMessage q) = false).
  { apply String.eqb_neq. intros H. apply logMessage_inj in H. congruence. }
  destruct (desktop w), (Js.includes "429" e); cbn [app filter fst];
    now rewrite ?wrapper_names_no_playlist, ?Hq.
Qed.

(** Of the entries of a failed turn, those written against a playlist are
    the one of the [catch] clause, for the playlist of the turn. *)
Lemma against_turn (w : World) (cmd e p : string) :
  against p (wrapperLog w cmd e ++ handlerLog p e) = handlerLog p e.
Proof.
  unfold against, wrapperLog, handlerLog.
  destruct (desktop w), (Js.includes "429" e); cbn [app filter fst];
    now rewrite ?wrapper_names_no_playlist, ?String.eqb_refl.
Qed.

(** C5 fails: the scan of the first playlist is rejected by a rate limit;
    the second playlist is still scanned, but the only entry of the error
    log is the one [invoke] writes for the command: nothing is logged
    against the first playlist. *)
Lemma rate_limit_failure_names_no_playlist :
  raised rateLimitedOnce 0 2 "p1" = Some "HTTP 429: retry after 30 seconds" /\
  scanned (performScanLoop rateLimitedOnce ["p1"; "p2"]) = ["p1"; "p2"] /\
  errorLog (performScanLoop rateLimitedOnce ["p1"; "p2"])
  = [("Tauri invoke('scan_playlist') failed:", "HTTP 429: retry after 30 seconds")] /\
  against "p1" (errorLog (performScanLoop rateLimitedOnce ["p1"; "p2"])) = [].
Proof. repeat split; reflexivity. Qed.

(** C5, amended: when nobody cancels, an error raised in the turn of one
    playlist does not end the loop: every playlist of the list is scanned,
    in order.  The error log holds, turn by turn, the entries of the failed
    turns and nothing else.  For a failed scan these are the entry [invoke]
    writes in Tauri, which names the command, and then, unless the error is
    a rate limit (its text contains 429), one entry written against the
    playlist of that turn; a rate-limit failure has no entry against its
    playlist.  No turn writes an entry against another playlist than its
    own. *)
Theorem scan_errors_do_not_abort_the_batch (w : World) (ids : list string) :
  neverCancelled w ->
  scanned (performScanLoop w ids) = ids /\
  errorLog (performScanLoop w ids) = flatMapFrom (logOf w) 0 ids /\
  (forall i p e, scanReply w i = inl e ->
     logOf w i p
     = ((if desktop w then [(failedMessage "scan_playlist", e)] else [])
        ++ (if Js.includes "429" e then [] else [(logMessage p, e)]))%list) /\
  (forall i p e, scanReply w i = inl e -> Js.includes "429" e = false ->
     against p (logOf w i p) = [(logMessage p, e)]) /\
  (forall i p e, scanReply w i = inl e -> Js.includes "429" e = true ->
     against p (logOf w i p) = []) /\
  (forall i p q, q <> p -> against q (logOf w i p) = []) /\
  (forall i p, raised w i (List.length ids) p = None -> logOf w i p = []).
Proof.
  intros Hnc. destruct (performScanLoop_observed w ids Hnc) as (Hs & _ & Hl).
  split; [exact Hs|]. split; [exact Hl|].
  assert (Hlog : forall i p e, scanReply w i = inl e ->
            logOf w i p = (wrapperLog w "scan_playlist" e ++ handlerLog p e)%list).
  { intros i p e Hreply. unfold logOf, failure. now rewrite Hreply. }
  split; [|split; [|split; [|split]]].
  - intros i p e Hreply. now rewrite (Hlog i p e Hreply).
  - intros i p e Hreply H429. rewrite (Hlog i p e Hreply), against_turn.
    unfold handlerLog. now rewrite H429.
  - intros i p e Hreply H429. rewrite (Hlog i p e Hreply), against_turn.
    unfold handlerLog. now rewrite H429.
  - intros i p q Hne. unfold logOf.
    destruct (failure w i) as [[cmd e]|]; [now apply against_other | reflexivity].
  - intros i p Hnone. rewrite raised_failure in Hnone. unfold logOf.
    destruct (failure w i) as [[cmd e]|]; [discriminate | reflexivity].
Qed.

Lemma scan_errors_do_not_abort_the_batch_witness :
  scanned (performScanLoop failsOnce ["p1"; "p2"]) = ["p1"; "p2"] /\
  errorLog (performScanLoop failsOnce ["p1"; "p2"])
  = [(failedMessage "scan_playlist", "Playlist not found");
     (logMessage "p1", "Playlist not found")].
Proof.
  destruct (scan_errors_do_not_abort_the_batch failsOnce ["p1"; "p2"])
    as (Hs & Hl & _); [intros i; reflexivity|].
  split; [exact Hs | rewrite Hl; reflexivity].
Defined.

(** In a browser every scan is refused by the shim; the refusal is logged
    against each playlist in turn and the loop goes through the list. *)
Example browser_scan_is_refused_and_logged :
  scanned (performScanLoop inBrowser ["p1"; "p2"]) = ["p1"; "p2"] /\
  errorLog (performScanLoop inBrowser ["p1"; "p2"])
  = [(logMessage "p1", unsupported "scan_playlist");
     (logMessage "p2", unsupported "scan_playlist")].
Proof. split; reflexivity. Qed.

(** ** The Run button *)

(** The Run button can be clicked when no run is processing and a playlist
    is selected. *)
Lemma clickRun_spec (w : World) (s : AppState) (r : AppState * list event) :
  clickRun w s = Some r <->
  isProcessing s = false /\ selectedPlaylistIds s <> [] /\ r = handleRunProcess w s.
Proof.
  unfold clickRun, actionButton.
  destruct (isProcessing s); [split; [discriminate | intros (H & _); discriminate]|].
  destruct (selectedPlaylistIds s) as [|p ps]; cbn [List.length Nat.eqb].
  - split; [discriminate | intros (_ & H & _); contradiction].
  - split.
    + intros [= <-]. split; [reflexivity|]. split; [discriminate | reflexivity].
    + intros (_ & _ & ->). reflexivity.
Qed.

(** With no playlist selected the button is disabled and [handleRunProcess]
    is not reached. *)
Lemma no_selection_no_click (w : World) (s : AppState) :
  selectedPlaylistIds s = [] -> clickRun w s = None.
Proof.
  intros H. unfold clickRun, actionButton. rewrite H.
  now destruct (isProcessing s).
Qed.

(** C6: wherever a run can be started, with sorting on and no sort rule the
    run is rejected before any remote call: the only event is the status
    message, no scan or apply is invoked, the processing flag is not set and
    the status text is the message. *)
Theorem empty_rules_rejected_before_any_call (w : World) (s : AppState)
  (r : AppState * list event) :
  sortEnabled s = true ->
  sortRules s = [] ->
  clickRun w s = Some r ->
  snd r = [Status noRules] /\
  remoteCalls (snd r) = [] /\
  scanned (snd r) = [] /\
  isProcessing (fst r) = false /\
  statusText (fst r) = noRules.
Proof.
  intros Hon Hrules Hclick.
  apply clickRun_spec in Hclick. destruct Hclick as (Hidle & Hsel & ->).
  unfold handleRunProcess.
  destruct (selectedPlaylistIds s) as [|p ps]; [contradiction|].
  rewrite Hon, Hrules. cbn [List.length Nat.eqb andb fst snd].
  repeat split. exact Hidle.
Qed.

Lemma empty_rules_rejected_before_any_call_witness :
  snd (handleRunProcess rateLimitedOnce
         (set_selectedPlaylistIds ["p1"] (set_sortRules [] quietStore)))
  = [Status noRules].
Proof.
  apply (empty_rules_rejected_before_any_call rateLimitedOnce
           (set_selectedPlaylistIds ["p1"] (set_sortRules [] quietStore)));
    reflexivity.
Defined.

(** With a rule to sort by, the same click starts the scan of the
    selection. *)
Example run_starts_the_scan :
  scanned (snd (handleRunProcess failsOnce
                  (set_selectedPlaylistIds ["p1"; "p2"] quietStore)))
  = ["p1"; "p2"].
Proof. reflexivity. Qed.

End ScanFacts.

(** ** Run now *)

Section DashboardFacts.
Import Dashboard.

(** While a run is tracked a trigger does nothing but cancel the click. *)
Lemma handleRunNow_skips (id : string) (st : Dash) :
  truthy (runningId st) = true -> handleRunNow id st = (st, [PreventDefault]).
Proof. intros H. unfold handleRunNow. now rewrite H. Qed.

(** An accepted trigger sets the guard, for a config id that is not
    empty. *)
Lemma handleRunNow_tracks (id : string) (st : Dash) :
  id <> EmptyString -> truthy (runningId (fst (handleRunNow id st))) = true.
Proof.
  intros Hid. unfold handleRunNow.
  destruct (truthy (runningId st)) eqn:H; simpl; [exact H|].
  destruct id; [contradiction | reflexivity].
Qed.

(** While a run is tracked the Run buttons are disabled: clicks reach no
    handler. *)
Lemma clicks_while_tracked (ids : list string) (st : Dash) :
  truthy (runningId st) = true -> clicks ids st = (st, []).
Proof.
  intros H. induction ids as [|id ids IH]; cbn [clicks]; [reflexivity|].
  unfold clickRun, runDisabled. now rewrite H.
Qed.

(** Every way a run ends clears the guard. *)
Lemma run_end_clears_guard (st : Dash) :
  runningId (fst (answered Failed st)) = None /\
  (forall code detail, runningId (fst (answered (NotOk code detail) st)) = None) /\
  (forall h entries entry n,
     find (fun e => String.eqb (h_id e) (h_id h)) entries = Some entry ->
     status entry = "success" \/ status entry = "failed" ->
     runningId (fst (poll h n (PollOk entries) st)) = None) /\
  (forall h a, runningId (fst (poll h maxAttempts a st)) = None).
Proof.
  split; [reflexivity|]. split; [reflexivity|]. split.
  - intros h entries entry n Hfind Hst. unfold poll, pollBody. rewrite Hfind.
    destruct Hst as [-> | ->]; destruct (Nat.leb maxAttempts n); reflexivity.
  - intros h a. unfold poll. destruct (pollBody h a st) as [st1 eff1].
    reflexivity.
Qed.

(** The page asks for one run at a time: of any series of clicks (on
    configs whose ids are not empty) before an answer arrives, at most one
    sends a request. *)
Lemma page_asks_for_one_run (ids : list string) (st : Dash) :
  (forall id, In id ids -> id <> EmptyString) ->
  (List.length (started (snd (clicks ids st))) <= 1)%nat.
Proof.
  intros Hids. induction ids as [|id ids IH]; cbn [clicks]; [simpl; lia|].
  unfold clickRun, runDisabled.
  destruct (truthy (runningId st)) eqn:Hrun.
  - apply IH. intros j Hj. apply Hids. now right.
  - pose proof (handleRunNow_tracks id st (Hids id (or_introl eq_refl))) as Hnow.
    destruct (handleRunNow id st) as [st1 eff1] eqn:Hrn. cbn [fst] in Hnow.
    rewrite (clicks_while_tracked ids st1 Hnow). cbn [snd].
    unfold handleRunNow in Hrn. rewrite Hrun in Hrn. injection Hrn as <- <-.
    simpl. lia.
Qed.

Example three_clicks_one_run :
  started (snd (clicks ["cfg1"; "cfg1"; "cfg2"] initial)) = ["cfg1"].
Proof. reflexivity. Qed.

End DashboardFacts.

(** ** The run registry *)

Section RunsFacts.
Import Runs.

Lemma isRunning_settle (cfg : string) (error : option string) (h : RunHistory) :
  String.eqb (configId h) cfg = true -> isRunning (settle cfg error h) = false.
Proof.
  intros Hc. unfold settle. rewrite Hc. cbn [andb].
  destruct (isRunning h) eqn:Hr; [|exact Hr].
  now destruct error.
Qed.

Lemma configId_settle (cfg : string) (error : option string) (h : RunHistory) :
  configId (settle cfg error h) = configId h.
Proof. unfold settle. now destruct (String.eqb (configId h) cfg && isRunning h)%bool. Qed.

Lemma settle_other (cfg : string) (error : option string) (h : RunHistory) :
  String.eqb (configId h) cfg = false -> settle cfg error h = h.
Proof. intros Hc. unfold settle. now rewrite Hc. Qed.

(** The end of a run leaves no run of its config in flight. *)
Lemma finish_lands (cfg : string) (error : option string) (reg : Registry) :
  inFlight cfg (finish cfg error reg) = [].
Proof.
  unfold inFlight, finish. cbn [history].
  induction (history reg) as [|h l IH]; [reflexivity|].
  cbn [map filter]. rewrite configId_settle.
  destruct (String.eqb (configId h) cfg) eqn:Hc.
  - now rewrite (isRunning_settle cfg error h Hc).
  - exact IH.
Qed.

(** It leaves the runs of the other configs as they are. *)
Lemma finish_spares (cfg other : string) (error : option string) (reg : Registry) :
  String.eqb other cfg = false ->
  inFlight other (finish cfg error reg) = inFlight other reg.
Proof.
  intros Hne. unfold inFlight, finish. cbn [history].
  induction (history reg) as [|h l IH]; [reflexivity|].
  cbn [map filter]. rewrite configId_settle, IH.
  destruct (String.eqb (configId h) cfg) eqn:Hc.
  - apply String.eqb_eq in Hc.
    assert (Hother : String.eqb (configId h) other = false).
    { rewrite Hc, String.eqb_sym. exact Hne. }
    now rewrite Hother.
  - now rewrite (settle_other cfg error h Hc).
Qed.

Lemma marked_finish (cfg other : string) (error : option string) (reg : Registry) :
  marked other (finish cfg error reg)
  = (negb (String.eqb other cfg) && marked other reg)%bool.
Proof.
  unfold marked, finish. cbn [markers].
  induction (markers reg) as [|c l IH]; cbn [filter existsb].
  - now rewrite andb_false_r.
  - destruct (String.eqb c cfg) eqn:Hc; cbn [negb existsb]; rewrite IH.
    + apply String.eqb_eq in Hc. subst c.
      destruct (String.eqb other cfg); reflexivity.
    + destruct (String.eqb other c) eqn:Ho; [|reflexivity].
      apply String.eqb_eq in Ho. subst c. now rewrite Hc.
Qed.

(** The runs in flight after one more history entry. *)
Lemma inFlight_entry (cfg : string) (m : list string) (l : list RunHistory)
  (h : RunHistory) :
  inFlight cfg (mkRegistry m (l ++ [h]))
  = (inFlight cfg (mkRegistry m l)
     ++ (if String.eqb (configId h) cfg && isRunning h then [h] else []))%list.
Proof. unfold inFlight. cbn [history]. now rewrite filter_app. Qed.

Lemma consistent_empty : consistent empty.
Proof. intros cfg. split; [split; [discriminate | intros H; now contradiction H] | simpl; lia]. Qed.

Lemma consistent_trigger (cfg : string) (who : origin) (reg : Registry) :
  consistent reg -> consistent (trigger cfg who reg).
Proof.
  intros Hreg other. destruct (Hreg other) as [Hmark Hone].
  destruct reg as [m l]. unfold trigger.
  destruct (marked cfg (mkRegistry m l)) eqn:Hm; cbn [markers history].
  - rewrite inFlight_entry. cbn [configId isRunning run_status].
    rewrite andb_false_r, app_nil_r. exact (conj Hmark Hone).
  - rewrite inFlight_entry. cbn [configId isRunning run_status].
    rewrite andb_true_r.
    change (marked other (mkRegistry (cfg :: m) (l ++ [mkRun cfg running who None])))
      with (String.eqb other cfg || marked other (mkRegistry m l))%bool.
    change (inFlight other (mkRegistry (cfg :: m) l))
      with (inFlight other (mkRegistry m l)).
    destruct (String.eqb other cfg) eqn:Ho.
    + apply String.eqb_eq in Ho. subst other. rewrite String.eqb_refl.
      assert (Hnone : inFlight cfg (mkRegistry m l) = []).
      { destruct (inFlight cfg (mkRegistry m l)) eqn:Hin; [reflexivity|].
        assert (Hup : marked cfg (mkRegistry m l) = true)
          by (apply Hmark; discriminate).
        congruence. }
      rewrite Hnone. cbn [app List.length orb].
      split; [split; [discriminate | reflexivity] | lia].
    + rewrite String.eqb_sym, Ho, app_nil_r. cbn [orb].
      exact (conj Hmark Hone).
Qed.

Lemma consistent_finish (cfg : string) (error : option string) (reg : Registry) :
  consistent reg -> consistent (finish cfg error reg).
Proof.
  intros Hreg other. destruct (Hreg other) as [Hmark Hone].
  rewrite marked_finish.
  destruct (String.eqb other cfg) eqn:Ho.
  - apply String.eqb_eq in Ho. subst other. rewrite finish_lands. cbn [negb andb].
    split; [split; [discriminate | intros H; now contradiction H] | simpl; lia].
  - rewrite (finish_spares cfg other error reg Ho). cbn [negb andb].
    exact (conj Hmark Hone).
Qed.

Lemma consistent_play (steps : list step) : forall reg,
  consistent reg -> consistent (play steps reg).
Proof.
  induction steps as [|st steps IH]; intros reg Hreg; [exact Hreg|].
  cbn [play fold_left]. apply IH.
  destruct st as [cfg who | cfg error];
    [now apply consistent_trigger | now apply consistent_finish].
Qed.

(** C4: at most one run per config is in flight at a time.  After every
    sequence of triggers and run ends, each config has at most one run in
    status running.  A trigger that arrives while a run of its config is in
    flight starts no run: the runs in flight and the markers stay as they
    are, the history gets one entry for the skipped trigger, in status
    failed, and once the run in flight ends no run of the config is in
    flight, so the trigger was not kept for later.  A trigger that arrives
    while none is in flight starts one run. *)
Theorem one_run_per_config_in_flight (steps : list step) (cfg : string)
  (who : origin) :
  (List.length (inFlight cfg (play steps empty)) <= 1)%nat /\
  (inFlight cfg (play steps empty) <> [] ->
   inFlight cfg (trigger cfg who (play steps empty)) = inFlight cfg (play steps empty) /\
   markers (trigger cfg who (play steps empty)) = markers (play steps empty) /\
   history (trigger cfg who (play steps empty))
   = (history (play steps empty) ++ [skipped cfg who])%list /\
   run_status (skipped cfg who) = failed /\
   forall error,
     inFlight cfg (finish cfg error (trigger cfg who (play steps empty))) = []) /\
  (inFlight cfg (play steps empty) = [] ->
   inFlight cfg (trigger cfg who (play steps empty)) = [mkRun cfg running who None]).
Proof.
  pose proof (consistent_play steps empty consistent_empty cfg) as [Hmark Hone].
  split; [exact Hone|]. split.
  - intros Hfly. apply Hmark in Hfly.
    assert (Hskip : trigger cfg who (play steps empty)
                    = mkRegistry (markers (play steps empty))
                        (history (play steps empty) ++ [skipped cfg who])%list)
      by (unfold trigger; now rewrite Hfly).
    rewrite Hskip. cbn [markers history].
    split; [|split; [reflexivity|split; [reflexivity|split; [reflexivity|]]]].
    + rewrite inFlight_entry. cbn [skipped configId isRunning run_status].
      rewrite andb_false_r, app_nil_r. now destruct (play steps empty).
    + intros error. apply finish_lands.
  - intros Hnone.
    assert (Hdown : marked cfg (play steps empty) = false).
    { destruct (marked cfg (play steps empty)); [|reflexivity].
      exfalso. exact (proj1 Hmark eq_refl Hnone). }
    unfold trigger. rewrite Hdown, inFlight_entry.
    cbn [configId isRunning run_status]. rewrite String.eqb_refl. cbn [andb].
    destruct (play steps empty) as [m l]. cbn [history] in *.
    unfold inFlight in *. cbn [history] in *. now rewrite Hnone.
Qed.

Lemma one_run_per_config_in_flight_witness :
  history (trigger "cfg1" schedule
             (play [Trigger "cfg1" manual; Trigger "cfg2" schedule] empty))
  = (history (play [Trigger "cfg1" manual; Trigger "cfg2" schedule] empty)
     ++ [skipped "cfg1" schedule])%list /\
  inFlight "cfg1"
    (play [Trigger "cfg1" manual; Trigger "cfg2" schedule;
           Trigger "cfg1" manual; Finish "cfg1" None; Trigger "cfg1" schedule] empty)
  = [mkRun "cfg1" running schedule None].
Proof.
  destruct (one_run_per_config_in_flight
              [Trigger "cfg1" manual; Trigger "cfg2" schedule] "cfg1" schedule)
    as (_ & Hbusy & _).
  destruct (one_run_per_config_in_flight
              [Trigger "cfg1" manual; Trigger "cfg2" schedule;
               Trigger "cfg1" manual; Finish "cfg1" None] "cfg1" schedule)
    as (_ & _ & Hidle).
  split.
  - destruct Hbusy as (_ & _ & Hhist & _); [discriminate | exact Hhist].
  - apply Hidle. reflexivity.
Defined.

End RunsFacts.

(** ** Printing and reading numbers *)

Section NumeralFacts.
Import Js.

Lemma digits_print (d : Decimal.uint) : forall a,
  digits 10 (Some a) (NilEmpty.string_of_uint d) = Some (uval a d).
Proof.
  induction d; intros a; simpl; try reflexivity; rewrite IHd;
    now rewrite ?Z.add_0_r.
Qed.

Lemma digits_print_first (d : Decimal.uint) :
  d <> Decimal.Nil ->
  digits 10 None (NilEmpty.string_of_uint d) = Some (uval 0 d).
Proof. destruct d; intros H; try contradiction; simpl; now rewrite digits_print. Qed.

Lemma uval_of_uint_acc (d : Decimal.uint) : forall acc,
  Z.pos (Pos.of_uint_acc d acc) = uval (Z.pos acc) d.
Proof.
  induction d; intros acc; cbn [Pos.of_uint_acc uval]; try reflexivity;
    rewrite IHd; apply (f_equal (fun x => uval x d)); lia.
Qed.

Lemma uval_of_uint (d : Decimal.uint) : Z.of_N (Pos.of_uint d) = uval 0 d.
Proof.
  induction d; cbn [Pos.of_uint uval Z.of_N]; try reflexivity; try exact IHd;
    now rewrite uval_of_uint_acc.
Qed.

Lemma uval_to_uint (p : positive) : uval 0 (Pos.to_uint p) = Z.pos p.
Proof. now rewrite <- uval_of_uint, DecimalPos.Unsigned.of_to. Qed.

Lemma allDigits_print (d : Decimal.uint) :
  allDigits (NilEmpty.string_of_uint d) = true.
Proof. induction d; simpl; auto. Qed.

Lemma print_nonnil (d : Decimal.uint) :
  d <> Decimal.Nil -> NilZero.string_of_uint d = NilEmpty.string_of_uint d.
Proof. destruct d; intros H; try contradiction; reflexivity. Qed.

Lemma print_nonempty (d : Decimal.uint) :
  d <> Decimal.Nil -> NilEmpty.string_of_uint d <> EmptyString.
Proof. destruct d; intros H; try contradiction; discriminate. Qed.

Lemma prefix_cons (a b : ascii) (s1 s2 : string) :
  String.prefix (String a s1) (String b s2) = (Ascii.eqb a b && String.prefix s1 s2)%bool.
Proof.
  cbn [String.prefix].
  destruct (Ascii.ascii_dec a b) as [->|Hne].
  - now rewrite Ascii.eqb_refl.
  - destruct (Ascii.eqb_spec a b); [contradiction | reflexivity].
Qed.

Lemma prefix_nil (a : ascii) (s1 : string) :
  String.prefix (String a s1) EmptyString = false.
Proof. reflexivity. Qed.

Lemma digit_not (c b : ascii) : isDigit b = true -> isDigit c = false -> Ascii.eqb c b = false.
Proof.
  intros Hb Hc. destruct (Ascii.eqb_spec c b) as [->|]; [congruence | reflexivity].
Qed.

(** A run of digits does not start with a hexadecimal prefix. *)
Lemma no_hex_prefix (s : string) :
  allDigits s = true ->
  (String.prefix "0x" s || String.prefix "0X" s)%bool = false.
Proof.
  destruct s as [|a [|b rest]]; intros H.
  - reflexivity.
  - rewrite !prefix_cons, !prefix_nil, !andb_false_r. reflexivity.
  - cbn [allDigits] in H. apply andb_prop in H. destruct H as [_ H].
    apply andb_prop in H. destruct H as [Hb _].
    rewrite !prefix_cons, (digit_not "x" b Hb eq_refl), (digit_not "X" b Hb eq_refl).
    now rewrite !andb_false_r.
Qed.

(** On a run of digits [parseInt] reads the decimal value: no white space
    or sign is skipped and no hexadecimal prefix is seen. *)
Lemma parseInt_allDigits (s : string) :
  allDigits s = true -> parseInt s = digits 10 None s.
Proof.
  destruct s as [|a rest]; [reflexivity|].
  simpl allDigits. intros H. apply andb_prop in H. destruct H as [Ha Hrest].
  unfold parseInt.
  assert (Hw : isWhite a = false).
  { unfold isDigit, isWhite in *. destruct a as [[] [] [] [] [] [] [] []]; simpl in *; congruence. }
  cbn [trimStart]. rewrite Hw.
  assert (Hsign : a <> "-"%char /\ a <> "+"%char).
  { split; intros ->; discriminate. }
  assert (Hmatch :
    match String a rest with
    | String "-" r => (true, r)
    | String "+" r => (false, r)
    | _ => (false, String a rest)
    end = (false, String a rest)).
  { destruct a as [[] [] [] [] [] [] [] []]; try reflexivity; destruct Hsign; congruence. }
  rewrite Hmatch.
  assert (Hhex : (String.prefix "0x" (String a rest) || String.prefix "0X" (String a rest))%bool = false).
  { apply no_hex_prefix. cbn [allDigits]. now rewrite Ha, Hrest. }
  rewrite Hhex. destruct (digits 10 None (String a rest)); reflexivity.
Qed.

Lemma parseInt_minus (s : string) :
  allDigits s = true -> parseInt (String "-" s) = signed true (digits 10 None s).
Proof.
  intros H. unfold parseInt. cbn [trimStart]. change (isWhite "-") with false.
  cbv iota beta.
  pose proof (no_hex_prefix s H) as Hhex.
  now rewrite Hhex.
Qed.

(** Reading back a printed integer gives the integer. *)
Lemma parseInt_string_of_Z (z : Z) : parseInt (string_of_Z z) = Some z.
Proof.
  unfold string_of_Z. destruct z as [|p|p]; [reflexivity| |]; simpl.
  - pose proof (DecimalPos.Unsigned.to_uint_nonnil p) as Hnn.
    rewrite (print_nonnil _ Hnn), parseInt_allDigits by apply allDigits_print.
    now rewrite (digits_print_first _ Hnn), uval_to_uint.
  - pose proof (DecimalPos.Unsigned.to_uint_nonnil p) as Hnn.
    rewrite (print_nonnil _ Hnn), parseInt_minus by apply allDigits_print.
    now rewrite (digits_print_first _ Hnn), uval_to_uint.
Qed.

Lemma isNumeral_string_of_Z (z : Z) : isNumeral (string_of_Z z) = true.
Proof.
  unfold string_of_Z. destruct z as [|p|p]; [reflexivity| |]; simpl;
    pose proof (DecimalPos.Unsigned.to_uint_nonnil p) as Hnn;
    rewrite (print_nonnil _ Hnn).
  - pose proof (allDigits_print (Pos.to_uint p)) as Hd.
    pose proof (print_nonempty _ Hnn) as Hne.
    destruct (NilEmpty.string_of_uint (Pos.to_uint p)) as [|a rest]; [contradiction|].
    unfold isNumeral. simpl in Hd. apply andb_prop in Hd. destruct Hd as [Ha Hr].
    destruct a as [[] [] [] [] [] [] [] []]; try discriminate; simpl; exact Hr.
  - rewrite allDigits_print, andb_true_r.
    pose proof (print_nonempty _ Hnn) as Hne.
    destruct (NilEmpty.string_of_uint (Pos.to_uint p)); [contradiction|reflexivity].
Qed.

End NumeralFacts.

(** ** Splitting at a separator *)

Section SplitFacts.
Import Js.

Lemma lacks_app (c : ascii) (s1 s2 : string) :
  lacks c (s1 ++ s2) = (lacks c s1 && lacks c s2)%bool.
Proof. induction s1 as [|a s1 IH]; simpl; [reflexivity|]. now rewrite IH, andb_assoc. Qed.

Lemma split_lacks (sep : ascii) (s : string) :
  lacks sep s = true -> split sep s = [s].
Proof.
  induction s as [|a s IH]; simpl; [reflexivity|].
  intros H. apply andb_prop in H. destruct H as [Ha Hs].
  apply negb_true_iff in Ha. rewrite Ha, (IH Hs). reflexivity.
Qed.

Lemma split_app (sep : ascii) (s1 s2 : string) :
  lacks sep s1 = true ->
  split sep (s1 ++ String sep s2) = s1 :: split sep s2.
Proof.
  induction s1 as [|a s1 IH]; simpl.
  - intros _. now rewrite Ascii.eqb_refl.
  - intros H. apply andb_prop in H. destruct H as [Ha Hs].
    apply negb_true_iff in Ha. rewrite Ha, (IH Hs). reflexivity.
Qed.

Lemma lacks_allDigits (c : ascii) (s : string) :
  isDigit c = false -> allDigits s = true -> lacks c s = true.
Proof.
  intros Hc. induction s as [|a s IH]; simpl; [reflexivity|].
  intros H. apply andb_prop in H. destruct H as [Ha Hs].
  rewrite (IH Hs), andb_true_r. apply negb_true_iff.
  destruct (Ascii.eqb_spec a c) as [->|]; [congruence | reflexivity].
Qed.

Lemma lacks_numeral (c : ascii) (s : string) :
  isDigit c = false -> Ascii.eqb "-" c = false -> isNumeral s = true ->
  lacks c s = true.
Proof.
  intros Hc Hm. destruct s as [|a rest]; [reflexivity|].
  unfold isNumeral. intros H.
  destruct (Ascii.eqb_spec a "-") as [->|Hne].
  - apply andb_prop in H. destruct H as [_ H].
    cbn [lacks]. now rewrite Hm, (lacks_allDigits c rest Hc H).
  - apply lacks_allDigits; [exact Hc|].
    destruct a as [[] [] [] [] [] [] [] []]; try exact H; congruence.
Qed.

Lemma lacks_zeros (c : ascii) (n : nat) :
  isDigit c = false -> lacks c (zeros n) = true.
Proof.
  intros Hc. induction n as [|n IH]; cbn [zeros lacks]; [reflexivity|].
  rewrite IH, andb_true_r. apply negb_true_iff.
  destruct (Ascii.eqb_spec "0" c) as [<-|]; [discriminate | reflexivity].
Qed.

(** A printed integer is not a star and does not start with one. *)
Lemma numeral_not_star (s : string) :
  isNumeral s = true -> String.eqb s "*" = false /\ startsWith "*/" s = false.
Proof.
  destruct s as [|a rest]; [discriminate|]. intros H.
  assert (Ha : Ascii.eqb a "*" = false).
  { destruct (Ascii.eqb_spec a "*") as [->|]; [|reflexivity].
    simpl in H. destruct rest; discriminate. }
  split.
  - cbn [String.eqb]. now rewrite Ha.
  - unfold startsWith. rewrite prefix_cons, Ascii.eqb_sym, Ha. reflexivity.
Qed.

Lemma digits_zeros (k : nat) (s : string) :
  digits 10 (Some 0) (zeros k ++ s) = digits 10 (Some 0) s.
Proof. induction k as [|k IH]; simpl; [reflexivity | exact IH]. Qed.

Lemma digits_from_zero (s : string) :
  s <> EmptyString -> allDigits s = true ->
  digits 10 None s = digits 10 (Some 0) s.
Proof.
  destruct s as [|a rest]; [contradiction|]. intros _ H. simpl.
  destruct (digitVal 10 a) as [d|] eqn:Hd; [reflexivity|].
  simpl in H. apply andb_prop in H. destruct H as [Ha _].
  destruct a as [[] [] [] [] [] [] [] []]; discriminate.
Qed.

Lemma allDigits_app (s1 s2 : string) :
  allDigits (s1 ++ s2) = (allDigits s1 && allDigits s2)%bool.
Proof. induction s1 as [|a s1 IH]; simpl; [reflexivity|]. now rewrite IH, andb_assoc. Qed.

Lemma allDigits_zeros (k : nat) : allDigits (zeros k) = true.
Proof. induction k; simpl; auto. Qed.

(** Leading zeros do not change what [parseInt] reads from digits. *)
Lemma parseInt_zeros (k : nat) (s : string) :
  s <> EmptyString -> allDigits s = true ->
  parseInt (zeros k ++ s) = parseInt s.
Proof.
  intros Hne Hd.
  rewrite !parseInt_allDigits by (rewrite ?allDigits_app, ?allDigits_zeros; auto).
  destruct k as [|k]; [reflexivity|].
  rewrite (digits_from_zero s Hne Hd). cbn [zeros String.append digits].
  change (digitVal 10 "0") with (Some 0). cbv iota beta.
  apply digits_zeros.
Qed.

End SplitFacts.

(** ** Cron round trips *)

Section CronRoundTrips.
Import Js Cron.

Lemma numeral_lacks_space (z : Z) : lacks " " (string_of_Z z) = true.
Proof. apply lacks_numeral; [reflexivity | reflexivity | apply isNumeral_string_of_Z]. Qed.

Lemma numeral_lacks_colon (z : Z) : lacks ":" (string_of_Z z) = true.
Proof. apply lacks_numeral; [reflexivity | reflexivity | apply isNumeral_string_of_Z]. Qed.

Lemma num_or_some (z d : Z) : z <> 0 \/ d = 0 -> num_or (Some z) d = z.
Proof. intros H. unfold num_or. destruct (Z.eqb_spec z 0); lia. Qed.

(** A numeral of one character is a digit, so that padding it keeps it a
    run of digits; longer numerals are not padded. *)
Lemma pad_cases (z : Z) :
  pad (Some z) = string_of_Z z \/
  (pad (Some z) = zeros 1 ++ string_of_Z z /\ allDigits (string_of_Z z) = true).
Proof.
  unfold pad, padStart0, toString.
  pose proof (isNumeral_string_of_Z z) as Hn.
  destruct (string_of_Z z) as [|a [|b rest]]; [discriminate | right | left].
  - split; [reflexivity|]. unfold isNumeral in Hn.
    destruct (Ascii.eqb_spec a "-") as [->|Hne]; [discriminate|].
    destruct a as [[] [] [] [] [] [] [] []]; try exact Hn; congruence.
  - reflexivity.
Qed.

(** The clock fields the editor prints read back as the numbers printed. *)
Lemma parseInt_pad (z : Z) : parseInt (pad (Some z)) = Some z.
Proof.
  destruct (pad_cases z) as [-> | [-> Hd]].
  - apply parseInt_string_of_Z.
  - rewrite parseInt_zeros; [apply parseInt_string_of_Z | | exact Hd].
    intros Hnil. pose proof (isNumeral_string_of_Z z) as Hn. now rewrite Hnil in Hn.
Qed.

Lemma pad_lacks_colon (z : Z) : lacks ":" (pad (Some z)) = true.
Proof.
  destruct (pad_cases z) as [-> | [-> _]]; rewrite ?lacks_app, ?numeral_lacks_colon;
    reflexivity.
Qed.

(** The fields of a cron string written with single spaces. *)
Lemma fields_five (a b c d e : string) :
  lacks " " a = true -> lacks " " b = true -> lacks " " c = true ->
  lacks " " d = true -> lacks " " e = true ->
  fields (a ++ " " ++ b ++ " " ++ c ++ " " ++ d ++ " " ++ e) = [a; b; c; d; e].
Proof.
  intros Ha Hb Hc Hd He. unfold fields. cbn [String.append].
  now rewrite !split_app, split_lacks by assumption.
Qed.

(** What the decomposition does with five given fields. *)
Lemma parse_five (cron min hour dom mon dow : string) (st : simple) :
  fields cron = [min; hour; dom; mon; dow] ->
  parseCronToSimple cron st =
  if isHourly min hour dom mon dow then mkSimple hourly 6 "00:00" "1" "1"
  else if isInterval min hour dom mon dow then
    match parseInt (replace "*/" EmptyString hour) with
    | Some z => mkSimple interval z "00:00" "1" "1"
    | None => mkSimple interval 6 "00:00" "1" "1"
    end
  else if isDaily min hour dom mon dow then mkSimple daily 6 (clock hour min) "1" "1"
  else if isWeekly min hour dom mon dow then mkSimple weekly 6 (clock hour min) dow "1"
  else if isMonthly min hour dom mon dow then mkSimple monthly 6 (clock hour min) "1" dom
  else mkSimple daily 6 "00:00" "1" "1".
Proof.
  intros H. unfold parseCronToSimple. rewrite H. cbn [List.length Nat.ltb Nat.leb field nth].
  destruct (isHourly min hour dom mon dow); [reflexivity|].
  destruct (isInterval min hour dom mon dow).
  { destruct (parseInt (replace "*/" EmptyString hour)); reflexivity. }
  destruct (isDaily min hour dom mon dow); [reflexivity|].
  destruct (isWeekly min hour dom mon dow); [reflexivity|].
  destruct (isMonthly min hour dom mon dow); reflexivity.
Qed.

(** X1: Opening a schedule resets the whole simple form: with five fields or
    more, nothing of what the editor held before survives. *)
Theorem parse_forgets_previous_state (cron : string) (st1 st2 : simple) :
  (5 <= List.length (fields cron))%nat ->
  parseCronToSimple cron st1 = parseCronToSimple cron st2.
Proof.
  intros Hlen. unfold parseCronToSimple.
  destruct (Nat.ltb_spec (List.length (fields cron)) 5); [lia|].
  cbv zeta.
  destruct (isHourly _ _ _ _ _); [reflexivity|].
  destruct (isInterval _ _ _ _ _).
  { destruct (parseInt _); reflexivity. }
  destruct (isDaily _ _ _ _ _); [reflexivity|].
  destruct (isWeekly _ _ _ _ _); [reflexivity|].
  destruct (isMonthly _ _ _ _ _); reflexivity.
Qed.

Lemma parse_forgets_previous_state_witness :
  parseCronToSimple "15 3 * * 2" (mkSimple monthly 9 "23:59" "6" "28")
  = parseCronToSimple "15 3 * * 2" initial.
Proof.
  apply parse_forgets_previous_state. vm_compute. lia.
Defined.

(** The clock written back by [updateCronFromSimple]. *)
Lemma update_clock (h m : Z) (f : freq) (n : Z) (dow dom : string) :
  updateCronFromSimple (mkSimple f n (pad (Some h) ++ ":" ++ pad (Some m)) dow dom)
  = match f with
    | hourly => "0 * * * *"
    | interval => "0 */" ++ string_of_Z n ++ " * * *"
    | daily => string_of_Z m ++ " " ++ string_of_Z h ++ " * * *"
    | weekly => string_of_Z m ++ " " ++ string_of_Z h ++ " * * " ++ dow
    | monthly => string_of_Z m ++ " " ++ string_of_Z h ++ " " ++ dom ++ " * *"
    end.
Proof.
  unfold updateCronFromSimple. cbn [simpleTime simpleFreq simpleInterval simpleDow simpleDom].
  cbn [String.append]. rewrite split_app by apply pad_lacks_colon.
  rewrite split_lacks by apply pad_lacks_colon.
  cbn [map nth_error show]. rewrite !parseInt_pad, !num_or_some by auto.
  reflexivity.
Qed.

Lemma prefix_empty (s : string) : String.prefix EmptyString s = true.
Proof. now destruct s. Qed.

Lemma hourly_needs_star (min hour dom mon dow : string) :
  star hour = false -> isHourly min hour dom mon dow = false.
Proof. intros H. unfold isHourly. now rewrite H, andb_false_r. Qed.

Lemma interval_star_slash (s : string) :
  isInterval "0" ("*/" ++ s) "*" "*" "*" = true.
Proof.
  unfold isInterval, startsWith. cbn [String.append].
  now rewrite !prefix_cons, prefix_empty.
Qed.

Lemma replace_star_slash (s : string) : replace "*/" EmptyString ("*/" ++ s) = s.
Proof.
  cbn [String.append replace]. now rewrite !prefix_cons, prefix_empty.
Qed.

(** The round trips, on the integers of the model. *)
Lemma interval_trip (n : Z) (st : simple) :
  parseCronToSimple ("0 */" ++ string_of_Z n ++ " * * *") st
  = mkSimple interval n "00:00" "1" "1" /\
  updateCronFromSimple (parseCronToSimple ("0 */" ++ string_of_Z n ++ " * * *") st)
  = "0 */" ++ string_of_Z n ++ " * * *".
Proof.
  assert (Hparse : parseCronToSimple ("0 */" ++ string_of_Z n ++ " * * *") st
                   = mkSimple interval n "00:00" "1" "1").
  { rewrite (parse_five _ "0" ("*/" ++ string_of_Z n) "*" "*" "*").
    - rewrite hourly_needs_star, interval_star_slash, replace_star_slash by reflexivity.
      now rewrite parseInt_string_of_Z.
    - change ("0 */" ++ string_of_Z n ++ " * * *")
        with ("0" ++ " " ++ ("*/" ++ string_of_Z n) ++ " " ++ "*" ++ " " ++ "*" ++ " " ++ "*").
      apply fields_five; try reflexivity.
      cbn [String.append lacks]. now rewrite numeral_lacks_space. }
  split; [exact Hparse|]. rewrite Hparse. reflexivity.
Qed.

Lemma interval_needs_prefix (min hour dom mon dow : string) :
  startsWith "*/" hour = false -> isInterval min hour dom mon dow = false.
Proof. intros H. unfold isInterval. now rewrite H, andb_false_r. Qed.

Lemma clock_print (h m : Z) :
  clock (string_of_Z h) (string_of_Z m) = pad (Some h) ++ ":" ++ pad (Some m).
Proof. unfold clock. now rewrite !parseInt_string_of_Z. Qed.

(** The three clocked forms are told apart by their stars once the hour is
    a number. *)
Lemma parse_clocked (cron dom mon dow : string) (h m : Z) (st : simple) :
  fields cron = [string_of_Z m; string_of_Z h; dom; mon; dow] ->
  parseCronToSimple cron st =
  if isDaily EmptyString EmptyString dom mon dow
  then mkSimple daily 6 (pad (Some h) ++ ":" ++ pad (Some m)) "1" "1"
  else if isWeekly EmptyString EmptyString dom mon dow
  then mkSimple weekly 6 (pad (Some h) ++ ":" ++ pad (Some m)) dow "1"
  else if isMonthly EmptyString EmptyString dom mon dow
  then mkSimple monthly 6 (pad (Some h) ++ ":" ++ pad (Some m)) "1" dom
  else mkSimple daily 6 "00:00" "1" "1".
Proof.
  intros H. rewrite (parse_five _ _ _ _ _ _ st H).
  destruct (numeral_not_star _ (isNumeral_string_of_Z h)) as [Hstar Hpre].
  rewrite hourly_needs_star, interval_needs_prefix, clock_print by assumption.
  reflexivity.
Qed.

Lemma daily_trip (h m : Z) (st : simple) :
  parseCronToSimple (string_of_Z m ++ " " ++ string_of_Z h ++ " * * *") st
  = mkSimple daily 6 (pad (Some h) ++ ":" ++ pad (Some m)) "1" "1" /\
  updateCronFromSimple
    (parseCronToSimple (string_of_Z m ++ " " ++ string_of_Z h ++ " * * *") st)
  = string_of_Z m ++ " " ++ string_of_Z h ++ " * * *".
Proof.
  assert (Hparse :
    parseCronToSimple (string_of_Z m ++ " " ++ string_of_Z h ++ " * * *") st
    = mkSimple daily 6 (pad (Some h) ++ ":" ++ pad (Some m)) "1" "1").
  { rewrite (parse_clocked _ "*" "*" "*" h m); [reflexivity|].
    change (string_of_Z m ++ " " ++ string_of_Z h ++ " * * *")
      with (string_of_Z m ++ " " ++ string_of_Z h ++ " " ++ "*" ++ " " ++ "*" ++ " " ++ "*").
    apply fields_five; try reflexivity; apply numeral_lacks_space. }
  split; [exact Hparse|]. rewrite Hparse. apply update_clock.
Qed.

Lemma weekly_trip (h m : Z) (d : string) (st : simple) :
  lacks " " d = true -> star d = false ->
  parseCronToSimple (string_of_Z m ++ " " ++ string_of_Z h ++ " * * " ++ d) st
  = mkSimple weekly 6 (pad (Some h) ++ ":" ++ pad (Some m)) d "1" /\
  updateCronFromSimple
    (parseCronToSimple (string_of_Z m ++ " " ++ string_of_Z h ++ " * * " ++ d) st)
  = string_of_Z m ++ " " ++ string_of_Z h ++ " * * " ++ d.
Proof.
  intros Hsp Hstar.
  assert (Hparse :
    parseCronToSimple (string_of_Z m ++ " " ++ string_of_Z h ++ " * * " ++ d) st
    = mkSimple weekly 6 (pad (Some h) ++ ":" ++ pad (Some m)) d "1").
  { rewrite (parse_clocked _ "*" "*" d h m).
    - unfold isDaily, isWeekly. rewrite Hstar. reflexivity.
    - change (string_of_Z m ++ " " ++ string_of_Z h ++ " * * " ++ d)
        with (string_of_Z m ++ " " ++ string_of_Z h ++ " " ++ "*" ++ " " ++ "*" ++ " " ++ d).
      apply fields_five; try reflexivity; try apply numeral_lacks_space. exact Hsp. }
  split; [exact Hparse|]. rewrite Hparse. apply update_clock.
Qed.

Lemma monthly_trip (h m : Z) (d : string) (st : simple) :
  lacks " " d = true -> star d = false ->
  parseCronToSimple (string_of_Z m ++ " " ++ string_of_Z h ++ " " ++ d ++ " * *") st
  = mkSimple monthly 6 (pad (Some h) ++ ":" ++ pad (Some m)) "1" d /\
  updateCronFromSimple
    (parseCronToSimple (string_of_Z m ++ " " ++ string_of_Z h ++ " " ++ d ++ " * *") st)
  = string_of_Z m ++ " " ++ string_of_Z h ++ " " ++ d ++ " * *".
Proof.
  intros Hsp Hstar.
  assert (Hparse :
    parseCronToSimple (string_of_Z m ++ " " ++ string_of_Z h ++ " " ++ d ++ " * *") st
    = mkSimple monthly 6 (pad (Some h) ++ ":" ++ pad (Some m)) "1" d).
  { rewrite (parse_clocked _ d "*" "*" h m).
    - unfold isDaily, isWeekly, isMonthly. rewrite Hstar. reflexivity.
    - change (string_of_Z m ++ " " ++ string_of_Z h ++ " " ++ d ++ " * *")
        with (string_of_Z m ++ " " ++ string_of_Z h ++ " " ++ d ++ " " ++ "*" ++ " " ++ "*").
      apply fields_five; try reflexivity; try apply numeral_lacks_space. exact Hsp. }
  split; [exact Hparse|]. rewrite Hparse. apply update_clock.
Qed.

(** X2: Every-n-hours schedules survive the round trip, for every safe
    integer n: the cron string is read as the interval frequency with that
    interval, and written back unchanged. *)
Theorem interval_cron_round_trip (n : Z) (st : simple) :
  safe n ->
  parseCronToSimple ("0 */" ++ string_of_Z n ++ " * * *") st
  = mkSimple interval n "00:00" "1" "1" /\
  updateCronFromSimple (parseCronToSimple ("0 */" ++ string_of_Z n ++ " * * *") st)
  = "0 */" ++ string_of_Z n ++ " * * *".
Proof. intros _. apply interval_trip. Qed.

Lemma interval_cron_round_trip_witness :
  updateCronFromSimple (parseCronToSimple ("0 */" ++ string_of_Z 12 ++ " * * *") initial)
  = "0 */" ++ string_of_Z 12 ++ " * * *".
Proof.
  apply (interval_cron_round_trip 12 initial). unfold safe, maxSafe. simpl. lia.
Defined.

(** X3: Daily schedules survive the round trip, for all safe integers as
    hour and minute: "m h * * *" is read as daily at the padded clock h:m
    and written back unchanged. *)
Theorem daily_cron_round_trip (h m : Z) (st : simple) :
  safe h -> safe m ->
  parseCronToSimple (string_of_Z m ++ " " ++ string_of_Z h ++ " * * *") st
  = mkSimple daily 6 (pad (Some h) ++ ":" ++ pad (Some m)) "1" "1" /\
  updateCronFromSimple
    (parseCronToSimple (string_of_Z m ++ " " ++ string_of_Z h ++ " * * *") st)
  = string_of_Z m ++ " " ++ string_of_Z h ++ " * * *".
Proof. intros _ _. apply daily_trip. Qed.

Lemma daily_cron_round_trip_witness :
  updateCronFromSimple
    (parseCronToSimple (string_of_Z 5 ++ " " ++ string_of_Z 23 ++ " * * *") initial)
  = string_of_Z 5 ++ " " ++ string_of_Z 23 ++ " * * *".
Proof.
  apply (daily_cron_round_trip 23 5 initial); unfold safe, maxSafe; simpl; lia.
Defined.

(** X4: Weekly schedules survive the round trip: with safe integers as hour
    and minute and a day-of-week field that is not a star and holds no
    space, "m h * * d" is read as weekly on d at h:m and written back
    unchanged. *)
Theorem weekly_cron_round_trip (h m : Z) (d : string) (st : simple) :
  safe h -> safe m ->
  lacks " " d = true -> star d = false ->
  parseCronToSimple (string_of_Z m ++ " " ++ string_of_Z h ++ " * * " ++ d) st
  = mkSimple weekly 6 (pad (Some h) ++ ":" ++ pad (Some m)) d "1" /\
  updateCronFromSimple
    (parseCronToSimple (string_of_Z m ++ " " ++ string_of_Z h ++ " * * " ++ d) st)
  = string_of_Z m ++ " " ++ string_of_Z h ++ " * * " ++ d.
Proof. intros _ _. apply weekly_trip. Qed.

Lemma weekly_cron_round_trip_witness :
  updateCronFromSimple (parseCronToSimple ("30" ++ " " ++ "4" ++ " * * " ++ "1-5") initial)
  = "30" ++ " " ++ "4" ++ " * * " ++ "1-5".
Proof.
  apply (weekly_cron_round_trip 4 30 "1-5" initial);
    try reflexivity; unfold safe, maxSafe; simpl; lia.
Defined.

(** X5: Monthly schedules survive the round trip: with safe integers as hour
    and minute and a day-of-month field that is not a star and holds no
    space, "m h d * *" is read as monthly on d at h:m and written back
    unchanged. *)
Theorem monthly_cron_round_trip (h m : Z) (d : string) (st : simple) :
  safe h -> safe m ->
  lacks " " d = true -> star d = false ->
  parseCronToSimple (string_of_Z m ++ " " ++ string_of_Z h ++ " " ++ d ++ " * *") st
  = mkSimple monthly 6 (pad (Some h) ++ ":" ++ pad (Some m)) "1" d /\
  updateCronFromSimple
    (parseCronToSimple (string_of_Z m ++ " " ++ string_of_Z h ++ " " ++ d ++ " * *") st)
  = string_of_Z m ++ " " ++ string_of_Z h ++ " " ++ d ++ " * *".
Proof. intros _ _. apply monthly_trip. Qed.

Lemma monthly_cron_round_trip_witness :
  updateCronFromSimple (parseCronToSimple ("0" ++ " " ++ "9" ++ " " ++ "15" ++ " * *") initial)
  = "0" ++ " " ++ "9" ++ " " ++ "15" ++ " * *".
Proof.
  apply (monthly_cron_round_trip 9 0 "15" initial);
    try reflexivity; unfold safe, maxSafe; simpl; lia.
Defined.

(** *** The five patterns and the decomposition *)

Lemma specNumber_isNumeral (s : string) :
  specNumber s = true -> isNumeral s = true.
Proof.
  unfold specNumber. destruct s as [|a rest]; [discriminate|].
  cbn [String.eqb negb andb]. intros H. unfold isNumeral.
  destruct (Ascii.eqb_spec a "-") as [->|Hne]; [discriminate H|].
  destruct a as [[] [] [] [] [] [] [] []]; try exact H; congruence.
Qed.

(** An expression of one of the five patterns is read as the frequency of
    its pattern. *)
Lemma pattern_is_read_as_named (cron : string) (f : freq) (st : simple) :
  specPattern cron = Some f -> simpleFreq (parseCronToSimple cron st) = f.
Proof.
  unfold specPattern.
  destruct (fields cron) as [|min [|hour [|dom [|mon [|dow [|x rest]]]]]] eqn:Hf;
    try discriminate.
  rewrite (parse_five _ _ _ _ _ _ st Hf).
  fold (isHourly min hour dom mon dow).
  destruct (isHourly min hour dom mon dow); [now intros [= <-]|].
  destruct (String.eqb min "0" && startsWith "*/" hour
            && specNumber (drop 2 hour) && star dom && star mon && star dow)%bool
    eqn:Hi.
  - intros [= <-].
    repeat (apply andb_prop in Hi; destruct Hi as [Hi ?]).
    unfold isInterval.
    repeat match goal with H : _ = true |- _ => rewrite H; clear H end.
    cbn [andb]. now destruct (parseInt _).
  - destruct (specNumber min); [|discriminate].
    destruct (specNumber hour) eqn:Hhour; [|discriminate].
    destruct (star mon) eqn:Hmon; [|discriminate]. cbn [andb].
    destruct (numeral_not_star _ (specNumber_isNumeral _ Hhour)) as [_ Hpre].
    rewrite (interval_needs_prefix _ _ _ _ _ Hpre).
    unfold isDaily, isWeekly, isMonthly. rewrite Hmon.
    destruct (star dom), (star dow); cbn [andb negb];
      intros [= <-]; reflexivity.
Qed.

(** The daily branch asks for three stars and nothing of the clock fields:
    whatever stands in them is read with [parseInt]. *)
Lemma starred_days_are_read_as_daily (cron min hour : string) (st : simple) :
  fields cron = [min; hour; "*"; "*"; "*"] ->
  isHourly min hour "*" "*" "*" = false ->
  isInterval min hour "*" "*" "*" = false ->
  parseCronToSimple cron st = mkSimple daily 6 (clock hour min) "1" "1".
Proof.
  intros Hf Hh Hi. now rewrite (parse_five _ _ _ _ _ _ st Hf), Hh, Hi.
Qed.

(** C7: the claim fails at the schedule "*/15 * * * *", every quarter of an
    hour.  The expression has five fields and is none of the five patterns,
    yet it is not read as daily at 00:00: the daily branch takes it for its
    three stars and prints what [parseInt] makes of its clock fields, which
    is NaN.  The final else, which the source comments as the fall-back to
    daily 00:00 for complex expressions, is not reached. *)
Theorem quarter_hour_cron_is_not_read_as_midnight :
  List.length (fields "*/15 * * * *") = 5%nat /\
  specPattern "*/15 * * * *" = None /\
  takesBranch "*/15 * * * *" = true /\
  (forall st, parseCronToSimple "*/15 * * * *" st
              = mkSimple daily 6 "NaN:NaN" "1" "1") /\
  (forall st, parseCronToSimple "*/15 * * * *" st <> dailyMidnight) /\
  (forall st, simpleTime (parseCronToSimple "*/15 * * * *" st) <> "00:00").
Proof.
  split; [reflexivity|]. split; [reflexivity|]. split; [reflexivity|].
  split; [intros st; reflexivity|].
  split; intros st; discriminate.
Qed.

(** The same defect on a range of hours: 9 to 17 o'clock is read as 9
    o'clock. *)
Example hour_range_is_read_as_one_hour :
  specPattern "0 9-17 * * *" = None /\
  (forall st, parseCronToSimple "0 9-17 * * *" st
              = mkSimple daily 6 "09:00" "1" "1") /\
  updateCronFromSimple (mkSimple daily 6 "09:00" "1" "1") = "0 9 * * *".
Proof. split; [reflexivity|]. split; [intros st|]; reflexivity. Qed.

(** What [updateCronFromSimple] writes when the time has a colon. *)
Lemma update_shape (st : simple) :
  (2 <= List.length (split ":" (simpleTime st)))%nat ->
  exists h m,
    updateCronFromSimple st =
    match simpleFreq st with
    | hourly => "0 * * * *"
    | interval => "0 */" ++ string_of_Z (simpleInterval st) ++ " * * *"
    | daily => string_of_Z m ++ " " ++ string_of_Z h ++ " * * *"
    | weekly => string_of_Z m ++ " " ++ string_of_Z h ++ " * * " ++ simpleDow st
    | monthly => string_of_Z m ++ " " ++ string_of_Z h ++ " " ++ simpleDom st ++ " * *"
    end.
Proof.
  intros Hlen. unfold updateCronFromSimple.
  destruct (split ":" (simpleTime st)) as [|t0 [|t1 rest]]; simpl in Hlen; try lia.
  exists (num_or (parseInt t0) 0), (num_or (parseInt t1) 0). reflexivity.
Qed.

Lemma stable_on_model (st st' : simple) :
  (2 <= List.length (split ":" (simpleTime st)))%nat ->
  lacks " " (simpleDow st) = true ->
  lacks " " (simpleDom st) = true ->
  updateCronFromSimple (parseCronToSimple (updateCronFromSimple st) st')
  = updateCronFromSimple st.
Proof.
  intros Htime Hdow Hdom.
  destruct (update_shape st Htime) as (h & m & ->).
  destruct (simpleFreq st).
  - reflexivity.
  - apply interval_trip.
  - apply daily_trip.
  - destruct (star (simpleDow st)) eqn:Hstar.
    + apply String.eqb_eq in Hstar. rewrite Hstar. apply (daily_trip h m).
    + now apply weekly_trip.
  - destruct (star (simpleDom st)) eqn:Hstar.
    + apply String.eqb_eq in Hstar. rewrite Hstar. apply (daily_trip h m).
    + now apply monthly_trip.
Qed.

(** X6: A saved schedule is stable: the cron string the editor writes, opened
    again and written back untouched, is the same string.  This needs a time
    with a colon and day fields without spaces, as the editor's inputs
    give, and safe integers for the interval and for the numbers read from
    the time. *)
Theorem saved_cron_is_stable (st st' : simple) :
  (2 <= List.length (split ":" (simpleTime st)))%nat ->
  lacks " " (simpleDow st) = true ->
  lacks " " (simpleDom st) = true ->
  safe (simpleInterval st) ->
  Forall safe (map (fun n => num_or (parseInt n) 0) (split ":" (simpleTime st))) ->
  updateCronFromSimple (parseCronToSimple (updateCronFromSimple st) st')
  = updateCronFromSimple st.
Proof. intros Htime Hdow Hdom _ _. now apply stable_on_model. Qed.

Lemma saved_cron_is_stable_witness :
  updateCronFromSimple
    (parseCronToSimple (updateCronFromSimple (mkSimple weekly 6 "07:45" "3" "1")) initial)
  = updateCronFromSimple (mkSimple weekly 6 "07:45" "3" "1").
Proof.
  apply saved_cron_is_stable;
    [vm_compute; lia | reflexivity | reflexivity
     | unfold safe, maxSafe; simpl; lia
     | repeat constructor; unfold safe, maxSafe; simpl; lia].
Defined.

(** Without a colon the minute is [undefined] and the written cron is not
    stable. *)
Example time_without_colon_is_not_stable :
  updateCronFromSimple (mkSimple daily 6 "7" "1" "1") = "undefined 7 * * *" /\
  updateCronFromSimple
    (parseCronToSimple (updateCronFromSimple (mkSimple daily 6 "7" "1" "1")) initial)
  = "0 7 * * *".
Proof. split; reflexivity. Qed.

(** X7: The interval box keeps the interval between 1 and 23: what is typed is
    clamped, and an empty, non-numeric or zero entry gives 1.  A number
    from 1 to 23 is taken as typed. *)
Theorem interval_input_is_clamped (value : string) (st : simple) :
  1 <= simpleInterval (onIntervalChange value st) <= 23 /\
  (parseInt value = None \/ parseInt value = Some 0 ->
   simpleInterval (onIntervalChange value st) = 1) /\
  (forall n, 1 <= n <= 23 ->
   simpleInterval (onIntervalChange (string_of_Z n) st) = n).
Proof.
  unfold onIntervalChange. cbn [simpleInterval setSimpleInterval].
  split; [lia|]. split.
  - intros [-> | ->]; reflexivity.
  - intros n Hn. rewrite parseInt_string_of_Z, num_or_some by lia. lia.
Qed.

Lemma interval_input_is_clamped_witness :
  simpleInterval (onIntervalChange "abc" initial) = 1 /\
  simpleInterval (onIntervalChange (string_of_Z 12) initial) = 12.
Proof.
  destruct (interval_input_is_clamped "abc" initial) as (_ & Hbad & _).
  destruct (interval_input_is_clamped "12" initial) as (_ & _ & Hgood).
  split; [apply Hbad; left; reflexivity | apply Hgood; lia].
Defined.

End CronRoundTrips.

(** ** The rate-limit banner, continued *)

Section GovernorFacts.
Import Js Governor.

Lemma takeDigits_app (d post : string) :
  allDigits d = true -> digitFree1 post = true -> takeDigits (d ++ post) = d.
Proof.
  intros Hd Hp. induction d as [|a d IH]; cbn [String.append takeDigits].
  - destruct post as [|b post]; [reflexivity|]. cbn [takeDigits].
    cbn [digitFree1] in Hp. apply negb_true_iff in Hp. now rewrite Hp.
  - cbn [allDigits] in Hd. apply andb_prop in Hd. destruct Hd as [Ha Hd].
    now rewrite Ha, (IH Hd).
Qed.

Lemma matchDigits_app (pre d post : string) :
  noDigits pre = true -> d <> EmptyString -> allDigits d = true ->
  digitFree1 post = true ->
  matchDigits (pre ++ d ++ post) = Some d.
Proof.
  intros Hpre Hne Hd Hp. induction pre as [|a pre IH]; cbn [String.append].
  - destruct d as [|b d]; [contradiction|].
    cbn [String.append matchDigits]. pose proof Hd as Hd'.
    cbn [allDigits] in Hd'. apply andb_prop in Hd'. destruct Hd' as [Hb _].
    rewrite Hb. f_equal. apply (takeDigits_app (String b d) post Hd Hp).
  - cbn [noDigits] in Hpre. apply andb_prop in Hpre. destruct Hpre as [Ha Hpre].
    apply negb_true_iff in Ha. cbn [matchDigits]. rewrite Ha. now apply IH.
Qed.

Lemma allDigits_takeDigits (s : string) : allDigits (takeDigits s) = true.
Proof.
  induction s as [|a s IH]; cbn [takeDigits]; [reflexivity|].
  destruct (isDigit a) eqn:Ha; [|reflexivity]. cbn [allDigits]. now rewrite Ha, IH.
Qed.

Lemma matchDigits_allDigits (s m : string) :
  matchDigits s = Some m -> allDigits m = true.
Proof.
  induction s as [|a s IH]; cbn [matchDigits]; [discriminate|].
  destruct (isDigit a) eqn:Ha; [|exact IH].
  intros [= <-]. apply (allDigits_takeDigits (String a s)).
Qed.

Lemma parseInt10_allDigits (s : string) :
  allDigits s = true -> parseInt10 s = digits 10 None s.
Proof.
  destruct s as [|a rest]; [reflexivity|].
  cbn [allDigits]. intros H. apply andb_prop in H. destruct H as [Ha Hrest].
  unfold parseInt10.
  assert (Hw : isWhite a = false).
  { unfold isDigit, isWhite in *. destruct a as [[] [] [] [] [] [] [] []]; simpl in *; congruence. }
  cbn [trimStart]. rewrite Hw.
  assert (Hmatch :
    match String a rest with
    | String "-" r => (true, r)
    | String "+" r => (false, r)
    | _ => (false, String a rest)
    end = (false, String a rest)).
  { destruct a as [[] [] [] [] [] [] [] []]; try reflexivity; discriminate. }
  rewrite Hmatch. destruct (digits 10 None (String a rest)); reflexivity.
Qed.

Lemma digitVal_nonneg (c : ascii) (d : Z) : digitVal 10 c = Some d -> 0 <= d.
Proof.
  unfold digitVal.
  repeat match goal with
         | |- context [if ?b then _ else _] => destruct b eqn:?
         end; intros [= <-]; lia.
Qed.

Lemma digits_nonneg (s : string) : forall acc z,
  match acc with Some a => 0 <= a | None => True end ->
  digits 10 acc s = Some z -> 0 <= z.
Proof.
  induction s as [|c s IH]; intros acc z Hacc; cbn [digits].
  - intros ->. exact Hacc.
  - destruct (digitVal 10 c) as [d|] eqn:Hd.
    + apply IH. pose proof (digitVal_nonneg c d Hd). destruct acc; lia.
    + intros ->. exact Hacc.
Qed.

(** X9: The wait time read from a 429 answer: 60 seconds when the detail holds
    no digit (or is no string), never a negative number, and otherwise the
    first number written in the detail, for a number that is a safe
    integer. *)
Theorem wait_time_from_detail :
  secondsOf None = 60 /\
  (forall detail, noDigits detail = true -> secondsOf (Some detail) = 60) /\
  (forall detail, 0 <= secondsOf detail) /\
  (forall pre post n,
     0 <= n <= maxSafe -> noDigits pre = true -> digitFree1 post = true ->
     secondsOf (Some (pre ++ string_of_Z n ++ post)) = n).
Proof.
  split; [reflexivity|]. split; [|split].
  - intros detail H. unfold secondsOf.
    assert (Hm : matchDigits detail = None).
    { induction detail as [|a s IH]; cbn [matchDigits]; [reflexivity|].
      cbn [noDigits] in H. apply andb_prop in H. destruct H as [Ha Hs].
      apply negb_true_iff in Ha. rewrite Ha. now apply IH. }
    now rewrite Hm.
  - intros detail. unfold secondsOf.
    destruct (matchDigits _) as [m|] eqn:Hm; [|lia].
    rewrite (parseInt10_allDigits m (matchDigits_allDigits _ _ Hm)).
    destruct (digits 10 None m) as [z|] eqn:Hz; [|lia].
    exact (digits_nonneg m None z I Hz).
  - intros pre post n [Hn _] Hpre Hpost. unfold secondsOf.
    assert (Hd : allDigits (string_of_Z n) = true /\ string_of_Z n <> EmptyString).
    { pose proof (isNumeral_string_of_Z n) as Hnum.
      destruct n as [|p|p]; [split; [reflexivity | discriminate] | | lia].
      unfold string_of_Z in *. simpl Z.to_int in *. cbn [NilZero.string_of_int] in *.
      pose proof (DecimalPos.Unsigned.to_uint_nonnil p) as Hnn.
      rewrite (print_nonnil _ Hnn). split; [apply allDigits_print|].
      now apply print_nonempty. }
    destruct Hd as [Hd Hne].
    rewrite (matchDigits_app pre _ post Hpre Hne Hd Hpost).
    rewrite (parseInt10_allDigits _ Hd), <- (parseInt_allDigits _ Hd).
    now rewrite parseInt_string_of_Z.
Qed.

Lemma wait_time_from_detail_witness :
  secondsOf (Some "no number here") = 60 /\
  secondsOf (Some ("Retry in " ++ string_of_Z 86400 ++ " seconds (24h)")) = 86400.
Proof.
  destruct wait_time_from_detail as (_ & Hnone & _ & Hnum).
  split; [apply Hnone; reflexivity
         | apply Hnum; [unfold maxSafe; lia | reflexivity | reflexivity]].
Defined.

Lemma countdown_S (n : nat) (w : Z) :
  countdown (S n) w = tick (countdown n w).
Proof. reflexivity. Qed.

(** X10: The countdown: after [n] ticks a wait of [w] seconds, [w] a safe
    integer, stands at [max 0 (w - n)]; it never goes below zero, and the
    banner shows the lock exactly while more than 120 seconds remain, so
    that a long lock is shown as a back-off for its last two minutes. *)
Theorem countdown_after_ticks (n : nat) (w : Z) :
  0 <= w <= maxSafe ->
  countdown n w = Z.max 0 (w - Z.of_nat n) /\
  0 <= countdown n w /\
  isSpotifyBan (countdown n w) = (120 <? w - Z.of_nat n).
Proof.
  intros [Hw _].
  assert (H : countdown n w = Z.max 0 (w - Z.of_nat n)).
  { induction n as [|n IH]; [unfold countdown; simpl; lia|].
    rewrite countdown_S, IH. unfold tick. lia. }
  rewrite H, isSpotifyBan_threshold. repeat split; lia.
Qed.

Lemma countdown_after_ticks_witness :
  countdown 30 140 = Z.max 0 (140 - Z.of_nat 30) /\
  0 <= countdown 30 140 /\
  isSpotifyBan (countdown 30 140) = (120 <? 140 - Z.of_nat 30).
Proof. apply countdown_after_ticks. unfold maxSafe. lia. Defined.

(** X11: The countdown text of a wait time that is a safe integer shows the
    units it needs and no more: seconds alone below a minute, minutes and
    seconds below an hour, hours, minutes and seconds from an hour on. *)
Theorem countdown_text_by_range (w : Z) :
  safe w ->
  (0 <= w < 60 -> timeStr w = string_of_Z w ++ "s") /\
  (60 <= w < 3600 ->
   timeStr w = string_of_Z (w / 60) ++ "m " ++ string_of_Z (w mod 60) ++ "s") /\
  (3600 <= w ->
   timeStr w = string_of_Z (w / 3600) ++ "h " ++ string_of_Z ((w mod 3600) / 60)
               ++ "m " ++ string_of_Z (w mod 60) ++ "s") /\
  (w <= 0 -> timeStr w = "0s").
Proof.
  intros _. unfold timeStr, remaining. repeat split; intros H.
  - replace (Z.max 0 w) with w by lia.
    rewrite (Z.div_small w 3600), (Z.mod_small w 3600), (Z.div_small w 60),
      (Z.mod_small w 60) by lia.
    reflexivity.
  - replace (Z.max 0 w) with w by lia.
    rewrite (Z.div_small w 3600), (Z.mod_small w 3600) by lia.
    assert (0 < w / 60) by (apply Z.div_str_pos; lia).
    destruct (Z.ltb_spec 0 (w / 60)); [reflexivity | lia].
  - replace (Z.max 0 w) with w by lia.
    assert (0 < w / 3600) by (apply Z.div_str_pos; lia).
    destruct (Z.ltb_spec 0 (w / 3600)); [reflexivity | lia].
  - replace (Z.max 0 w) with 0 by lia. reflexivity.
Qed.

Lemma countdown_text_by_range_witness :
  timeStr 3725 = string_of_Z (3725 / 3600) ++ "h " ++ string_of_Z ((3725 mod 3600) / 60)
                 ++ "m " ++ string_of_Z (3725 mod 60) ++ "s".
Proof.
  destruct (countdown_text_by_range 3725) as (_ & _ & H & _);
    [unfold safe, maxSafe; simpl; lia | apply H; lia].
Defined.

End GovernorFacts.

(** ** The store, continued *)

Section StoreMoreFacts.
Import Store.

Lemma includes_app (id : string) (l1 l2 : list string) :
  includes id (l1 ++ l2) = (includes id l1 || includes id l2)%bool.
Proof. unfold includes. apply existsb_app. Qed.

Lemma includes_filter_ne (id other : string) (l : list string) :
  includes other (filter (fun pid => negb (String.eqb pid id)) l)
  = (negb (String.eqb other id) && includes other l)%bool.
Proof.
  unfold includes. induction l as [|a l IH]; simpl; [now rewrite andb_false_r|].
  destruct (String.eqb_spec a id) as [->|Hne]; simpl; rewrite IH.
  - destruct (String.eqb_spec other id) as [->|]; simpl; [reflexivity|].
    destruct (String.eqb_spec other id); [contradiction | reflexivity].
  - destruct (String.eqb_spec other a) as [->|]; simpl; [|reflexivity].
    destruct (String.eqb_spec a id); [contradiction | reflexivity].
Qed.

Lemma filter_absent (id : string) (l : list string) :
  includes id l = false -> filter (fun pid => negb (String.eqb pid id)) l = l.
Proof.
  unfold includes. induction l as [|a l IH]; simpl; [reflexivity|].
  intros H. apply orb_false_iff in H. destruct H as [Ha Hl].
  rewrite String.eqb_sym in Ha. rewrite Ha. simpl. now rewrite IH.
Qed.

(** X12: Toggling a playlist flips its selection and nobody else's; toggling a
    playlist that was not selected twice restores the selection. *)
Theorem toggle_flips_one (id : string) (s : AppState) :
  includes id (selectedPlaylistIds (togglePlaylistSelection id s))
  = negb (includes id (selectedPlaylistIds s)) /\
  (forall other, other <> id ->
     includes other (selectedPlaylistIds (togglePlaylistSelection id s))
     = includes other (selectedPlaylistIds s)) /\
  (includes id (selectedPlaylistIds s) = false ->
   selectedPlaylistIds (togglePlaylistSelection id (togglePlaylistSelection id s))
   = selectedPlaylistIds s).
Proof.
  unfold togglePlaylistSelection.
  destruct (includes id (selectedPlaylistIds s)) eqn:Hin; cbn [selectedPlaylistIds set_selectedPlaylistIds].
  - split; [|split].
    + now rewrite includes_filter_ne, String.eqb_refl.
    + intros other Hne. rewrite includes_filter_ne.
      destruct (String.eqb_spec other id); [contradiction | reflexivity].
    + discriminate.
  - split; [|split].
    + rewrite includes_app. unfold includes at 2. simpl.
      now rewrite String.eqb_refl, orb_true_r.
    + intros other Hne. rewrite includes_app. unfold includes at 2. simpl.
      destruct (String.eqb_spec other id); [contradiction|]. now rewrite !orb_false_r.
    + intros _.
      assert (Hnow : includes id (selectedPlaylistIds s ++ [id]) = true).
      { rewrite includes_app. unfold includes at 2. simpl.
        now rewrite String.eqb_refl, orb_true_r. }
      rewrite Hnow. cbn [selectedPlaylistIds set_selectedPlaylistIds].
      rewrite filter_app. simpl. rewrite String.eqb_refl. simpl.
      now rewrite app_nil_r, filter_absent.
Qed.

Lemma toggle_flips_one_witness :
  selectedPlaylistIds
    (togglePlaylistSelection "p2"
       (togglePlaylistSelection "p2"
          (set_selectedPlaylistIds ["p1"; "p3"] (initialState "r1" "r2" "r3" "r4"))))
  = ["p1"; "p3"].
Proof.
  apply (toggle_flips_one "p2"
           (set_selectedPlaylistIds ["p1"; "p3"] (initialState "r1" "r2" "r3" "r4"))).
  reflexivity.
Defined.

(** X13: With two rules or more, removal deletes every rule of the given id and
    nothing else: the other rules stay, in their order. *)
Theorem removal_is_exact (id : string) (s : AppState) :
  (2 <= List.length (sortRules s))%nat ->
  sortRules (removeSortRule id s)
  = filter (fun r => negb (String.eqb (rule_id r) id)) (sortRules s) /\
  ~ In id (ruleIds (removeSortRule id s)) /\
  (forall r, In r (sortRules s) -> rule_id r <> id ->
     In r (sortRules (removeSortRule id s))).
Proof.
  intros Hlen. unfold removeSortRule, ruleIds.
  destruct (Nat.leb_spec (List.length (sortRules s)) 1); [lia|].
  rewrite sortRules_set. split; [reflexivity|]. split.
  - intros Hin. apply in_map_iff in Hin. destruct Hin as (r & Hid & Hr).
    apply filter_In in Hr. destruct Hr as [_ Hr]. rewrite Hid, String.eqb_refl in Hr.
    discriminate.
  - intros r Hr Hne. apply filter_In. split; [exact Hr|].
    destruct (String.eqb_spec (rule_id r) id); [contradiction | reflexivity].
Qed.

Lemma removal_is_exact_witness :
  ruleIds (removeSortRule "r2" (initialState "r1" "r2" "r3" "r4")) = ["r1"; "r3"; "r4"].
Proof.
  unfold ruleIds.
  rewrite (proj1 (removal_is_exact "r2" (initialState "r1" "r2" "r3" "r4")
                    ltac:(simpl; lia))).
  reflexivity.
Defined.

Lemma merge_idem (r : SortRule) (u : PartialRule) : merge (merge r u) u = merge r u.
Proof. unfold merge. simpl. destruct (p_id u), (p_criteria u), (p_descending u); reflexivity. Qed.

(** X14: An update is idempotent, keeps the number of rules, leaves the rules of
    other ids as they are, and, when it does not set the id, keeps every
    rule id in place. *)
Theorem update_is_local (id : string) (u : PartialRule) (s : AppState) :
  updateSortRule id u (updateSortRule id u s) = updateSortRule id u s /\
  List.length (sortRules (updateSortRule id u s)) = List.length (sortRules s) /\
  (forall i r, nth_error (sortRules s) i = Some r -> rule_id r <> id ->
     nth_error (sortRules (updateSortRule id u s)) i = Some r) /\
  (p_id u = None -> ruleIds (updateSortRule id u s) = ruleIds s).
Proof.
  split; [|split; [|split]].
  - unfold updateSortRule. rewrite sortRules_set. unfold set_sortRules. simpl. f_equal.
    rewrite map_map. apply map_ext. intros r.
    destruct (String.eqb_spec (rule_id r) id) as [Heq|Hne].
    + destruct (String.eqb (rule_id (merge r u)) id); [apply merge_idem | reflexivity].
    + destruct (String.eqb_spec (rule_id r) id); [contradiction | reflexivity].
  - apply updateSortRule_length.
  - intros i r Hnth Hne. unfold updateSortRule. rewrite sortRules_set.
    rewrite nth_error_map, Hnth. simpl.
    destruct (String.eqb_spec (rule_id r) id); [contradiction | reflexivity].
  - intros Hid. unfold ruleIds, updateSortRule. rewrite sortRules_set, map_map.
    apply map_ext. intros r. destruct (String.eqb (rule_id r) id); [|reflexivity].
    unfold merge. simpl. now rewrite Hid.
Qed.

Lemma update_is_local_witness :
  ruleIds (updateSortRule "r2" (mkPartial None None (Some true))
             (initialState "r1" "r2" "r3" "r4"))
  = ruleIds (initialState "r1" "r2" "r3" "r4").
Proof.
  apply (update_is_local "r2" (mkPartial None None (Some true))
           (initialState "r1" "r2" "r3" "r4")).
  reflexivity.
Defined.

(** X15: Below the cap, an addition appends one rule and keeps the others.  The
    new rule carries the generated id, whatever id the caller passed, and
    its criteria is never empty: a missing or empty criteria becomes
    "Artist". *)
Theorem addition_appends (fresh : string) (rule : option PartialRule) (s : AppState) :
  (List.length (sortRules s) < 8)%nat ->
  sortRules (addSortRule fresh rule s)
  = (sortRules s ++ [mkRule fresh (criteriaOr rule) (descendingOr rule)])%list /\
  criteriaOr rule <> EmptyString /\
  criteriaOr None = "Artist" /\
  (forall r, p_criteria r = None \/ p_criteria r = Some EmptyString ->
     criteriaOr (Some r) = "Artist").
Proof.
  intros Hlen. split; [|split; [|split]].
  - unfold addSortRule. destruct (Nat.leb_spec 8 (List.length (sortRules s))); [lia|].
    now rewrite sortRules_set.
  - unfold criteriaOr. destruct rule as [r|]; [|discriminate].
    destruct (p_criteria r) as [c|]; [|discriminate].
    destruct c; simpl; discriminate.
  - reflexivity.
  - intros r [H | H]; unfold criteriaOr; now rewrite H.
Qed.

Lemma addition_appends_witness :
  ruleIds (addSortRule "r5" (Some (mkPartial (Some "caller-id") (Some "BPM") None))
             (initialState "r1" "r2" "r3" "r4"))
  = ["r1"; "r2"; "r3"; "r4"; "r5"].
Proof.
  unfold ruleIds.
  rewrite (proj1 (addition_appends "r5" (Some (mkPartial (Some "caller-id") (Some "BPM") None))
                    (initialState "r1" "r2" "r3" "r4") ltac:(simpl; lia))).
  reflexivity.
Defined.

Lemma spliceOut_length {A} (i : nat) (l : list A) :
  (i < List.length l)%nat -> List.length (spliceOut i l) = (List.length l - 1)%nat.
Proof.
  intros H. unfold spliceOut. rewrite length_app, length_firstn, length_skipn. lia.
Qed.

Lemma spliceIn_nth {A} (i : nat) (x : A) (l : list A) :
  (i <= List.length l)%nat -> nth_error (spliceIn i x l) i = Some x.
Proof.
  intros H. unfold spliceIn.
  rewrite nth_error_app2 by (rewrite length_firstn; lia).
  rewrite length_firstn. replace (i - Nat.min i (List.length l))%nat with 0%nat by lia.
  reflexivity.
Qed.

Lemma spliceOut_spliceIn {A} (i : nat) (x : A) (l : list A) :
  (i <= List.length l)%nat -> spliceOut i (spliceIn i x l) = l.
Proof.
  intros H. unfold spliceOut, spliceIn.
  assert (Hlen : List.length (firstn i l) = i) by (rewrite length_firstn; lia).
  rewrite firstn_app, Hlen, Nat.sub_diag. cbn [firstn]. rewrite app_nil_r.
  rewrite firstn_firstn, Nat.min_id.
  rewrite skipn_app, Hlen.
  rewrite (skipn_all2 (firstn i l)) by lia.
  replace (S i - i)%nat with 1%nat by lia. cbn [skipn app].
  apply firstn_skipn.
Qed.

(** X16: A drag from one row to another puts the dragged rule at the row it is
    dropped on and keeps the other rules in their relative order. *)
Theorem drag_lands_on_drop_row (src cur : nat) (s : AppState) (moved : SortRule) :
  nth_error (sortRules s) src = Some moved ->
  (cur < List.length (sortRules s))%nat ->
  src <> cur ->
  exists s',
    dragReorder src cur s = Some s' /\
    nth_error (sortRules s') cur = Some moved /\
    spliceOut cur (sortRules s') = spliceOut src (sortRules s) /\
    List.length (sortRules s') = List.length (sortRules s).
Proof.
  intros Hnth Hcur Hne. unfold dragReorder.
  destruct (Nat.eqb_spec src cur); [contradiction|]. rewrite Hnth.
  eexists. split; [reflexivity|]. unfold reorderSortRules. rewrite sortRules_set.
  assert (Hsrc : (src < List.length (sortRules s))%nat).
  { apply nth_error_Some. congruence. }
  pose proof (spliceOut_length src (sortRules s) Hsrc) as Hlen.
  split; [apply spliceIn_nth; lia|]. split; [apply spliceOut_spliceIn; lia|].
  unfold spliceIn. rewrite length_app. cbn [List.length].
  rewrite length_firstn, length_skipn. lia.
Qed.

Lemma drag_lands_on_drop_row_witness :
  exists s',
    dragReorder 3 1 (initialState "r1" "r2" "r3" "r4") = Some s' /\
    nth_error (sortRules s') 1 = Some (mkRule "r4" "Track Name" false).
Proof.
  destruct (drag_lands_on_drop_row 3 1 (initialState "r1" "r2" "r3" "r4")
              (mkRule "r4" "Track Name" false))
    as (s' & Hdrag & Hnth & _); [reflexivity | simpl; lia | discriminate |].
  exists s'. split; assumption.
Defined.

(** Filtering keeps keys distinct. *)
Lemma distinct_keys_filter {V K} (key : V -> K) (keep : V -> bool) :
  forall items : list V,
    NoDup (map key items) -> NoDup (map key (filter keep items)).
Proof.
  intros items. induction items as [|v items IH]; intros Hnd; cbn [filter map].
  - constructor.
  - cbn [map] in Hnd. apply NoDup_cons_iff in Hnd. destruct Hnd as [Hfresh Hnd].
    destruct (keep v); cbn [map]; [|now apply IH].
    apply NoDup_cons_iff. split; [|now apply IH].
    intros Hin. apply Hfresh. apply in_map_iff in Hin.
    destruct Hin as (v' & Hkey & Hin). apply filter_In in Hin.
    apply in_map_iff. exists v'. tauto.
Qed.

Lemma panel_step (s : AppState) (o : op) :
  NoDup (ruleIds s) -> sortRules s <> [] ->
  match o with
  | OpAdd fresh _ => ~ In fresh (ruleIds s)
  | OpRemove _ => True
  | OpUpdate _ updates => p_id updates = None
  end ->
  NoDup (ruleIds (apply s o)) /\ sortRules (apply s o) <> [].
Proof.
  intros Hnd Hne Hop. destruct o as [fresh rule|id|id u]; unfold apply.
  - unfold addSortRule. destruct (Nat.leb 8 (List.length (sortRules s))); [auto|].
    unfold ruleIds. rewrite sortRules_set, map_app. split.
    + apply NoDup_app; [exact Hnd | repeat constructor; intros [] | ].
      intros x Hx [<- | []]. now apply Hop.
    + destruct (sortRules s); discriminate.
  - split; [|now apply removeSortRule_nonempty].
    unfold removeSortRule, ruleIds.
    destruct (Nat.leb (List.length (sortRules s)) 1); [exact Hnd|].
    rewrite sortRules_set. now apply distinct_keys_filter.
  - split.
    + now rewrite (proj2 (proj2 (proj2 (update_is_local id u s))) Hop).
    + intros Hnil. apply Hne. apply length_zero_iff_nil.
      rewrite <- (updateSortRule_length id u s), Hnil. reflexivity.
Qed.

(** X17: The panel can never empty the rule list.  From a non-empty list with
    distinct ids, additions under new ids, removals and updates that leave
    the id alone keep the ids distinct and the list non-empty, whatever
    their order and number. *)
Theorem panel_never_empties_rules (ops : list op) : forall s,
  NoDup (ruleIds s) -> sortRules s <> [] -> panelOps s ops ->
  NoDup (ruleIds (run ops s)) /\ sortRules (run ops s) <> [].
Proof.
  unfold run. induction ops as [|o ops IH]; intros s Hnd Hne Hops; [auto|].
  destruct Hops as [Hop Hrest].
  destruct (panel_step s o Hnd Hne Hop) as [Hnd' Hne'].
  cbn [fold_left]. now apply IH.
Qed.

Lemma panel_never_empties_rules_witness :
  sortRules (run [OpRemove "r1"; OpRemove "r2"; OpRemove "r3"; OpRemove "r4";
                  OpAdd "r5" None; OpRemove "r4"]
               (initialState "r1" "r2" "r3" "r4")) <> [].
Proof.
  apply (panel_never_empties_rules
           [OpRemove "r1"; OpRemove "r2"; OpRemove "r3"; OpRemove "r4";
            OpAdd "r5" None; OpRemove "r4"]
           (initialState "r1" "r2" "r3" "r4")).
  - repeat constructor; simpl; intuition discriminate.
  - discriminate.
  - simpl. intuition discriminate.
Defined.

End StoreMoreFacts.

(** ** The scan loop, continued *)

Section ScanMoreFacts.
Import Store Scan.

Lemma statuses_app (a b : list event) :
  statuses (a ++ b)%list = (statuses a ++ statuses b)%list.
Proof. induction a as [|[] a IH]; simpl; now rewrite ?IH. Qed.

Lemma enqueued_app (a b : list event) :
  enqueued (a ++ b)%list = (enqueued a ++ enqueued b)%list.
Proof. induction a as [|[] a IH]; simpl; now rewrite ?IH. Qed.

Lemma applies_app (a b : list event) :
  applies (a ++ b)%list = (applies a ++ applies b)%list.
Proof. induction a as [|[] a IH]; simpl; now rewrite ?IH. Qed.

(** The loop up to the turn at which it finds the cancel flag up. *)
Lemma loop_until_cancel (w : World) (total : nat) : forall k i ids,
  (k < List.length ids)%nat ->
  (forall j, (j < k)%nat -> shouldCancel (storeAt w (i + j)) = false) ->
  shouldCancel (storeAt w (i + k)) = true ->
  loop w i total ids
  = (flatMapFrom (fun j p => trace (iteration w j total p)) i (firstn k ids)
     ++ [Status "Cancelled execution."])%list.
Proof.
  induction k as [|k IH]; intros i ids Hlen Hbefore Hat;
    destruct ids as [|p ids]; simpl in Hlen; try lia.
  - rewrite Nat.add_0_r in Hat. cbn [loop firstn flatMapFrom app]. now rewrite Hat.
  - cbn [loop firstn flatMapFrom].
    pose proof (Hbefore 0%nat ltac:(lia)) as H0. rewrite Nat.add_0_r in H0. rewrite H0.
    rewrite <- app_assoc. f_equal. apply IH; [lia | |].
    + intros j Hj. replace (S i + j)%nat with (i + S j)%nat by lia. apply Hbefore. lia.
    + now replace (S i + k)%nat with (i + S k)%nat by lia.
Qed.

(** X18: Cancellation is cooperative: when the cancel flag is first found up at
    the top of turn [k], exactly the first [k] playlists have been scanned.
    The loop then sets the status to the cancellation text, releases the
    processing flag and sets the completion text, one after the other with
    no await between: the status the loop leaves is the completion text,
    not the cancellation. *)
Theorem cancel_stops_the_scan (w : World) (ids : list string) (k : nat) :
  (k < List.length ids)%nat ->
  (forall j, (j < k)%nat -> shouldCancel (storeAt w j) = false) ->
  shouldCancel (storeAt w k) = true ->
  scanned (performScanLoop w ids) = firstn k ids /\
  (exists turns,
     scanned turns = firstn k ids /\
     performScanLoop w ids
     = (turns ++ [Status "Cancelled execution."; Processing false;
                  Status (completionText w)]
        ++ (if Nat.ltb 0 (pendingEnd w) then [] else [Later 3000 EmptyString]))%list) /\
  last (statuses (performScanLoop w ids)) EmptyString = completionText w.
Proof.
  intros Hlen Hbefore Hat.
  assert (Hscanned : forall tail, scanned tail = [] ->
    scanned (flatMapFrom (fun j p => trace (iteration w j (List.length ids) p)) 0
               (firstn k ids) ++ tail)%list = firstn k ids).
  { intros tail Htail.
    rewrite scanned_app, (flatMapFrom_observe scanned scanned_app eq_refl), Htail.
    rewrite (flatMapFrom_ext _ (fun _ p => [p])) by (intros; apply iteration_scanned).
    now rewrite flatMapFrom_singleton, app_nil_r. }
  assert (Hshape : performScanLoop w ids
    = (flatMapFrom (fun j p => trace (iteration w j (List.length ids) p)) 0 (firstn k ids)
       ++ [Status "Cancelled execution."; Processing false; Status (completionText w)]
       ++ (if Nat.ltb 0 (pendingEnd w) then [] else [Later 3000 EmptyString]))%list).
  { unfold performScanLoop, completionText.
    rewrite (loop_until_cancel w (List.length ids) k 0 ids Hlen Hbefore Hat).
    rewrite <- app_assoc. destruct (Nat.ltb 0 (pendingEnd w)); reflexivity. }
  split; [|split].
  - rewrite Hshape. apply Hscanned. now destruct (Nat.ltb 0 (pendingEnd w)).
  - eexists. split; [|exact Hshape].
    rewrite <- (app_nil_r (flatMapFrom _ _ _)). now apply Hscanned.
  - rewrite Hshape, statuses_app. cbn [app statuses].
    assert (Htail : statuses (if Nat.ltb 0 (pendingEnd w) then []
                              else [Later 3000 EmptyString]) = [])
      by now destruct (Nat.ltb 0 (pendingEnd w)).
    rewrite Htail.
    induction (statuses (flatMapFrom _ 0 (firstn k ids))) as [|a l IH]; [reflexivity|].
    cbn [app last]. destruct (l ++ _)%list eqn:Hl; [|exact IH].
    now destruct l.
Qed.

Lemma cancel_stops_the_scan_witness :
  scanned (performScanLoop cancelledInSecond ["p1"; "p2"; "p3"; "p4"])
  = firstn 2 ["p1"; "p2"; "p3"; "p4"] /\
  last (statuses (performScanLoop cancelledInSecond ["p1"; "p2"; "p3"; "p4"]))
    EmptyString
  = "Scanning complete.".
Proof.
  destruct (cancel_stops_the_scan cancelledInSecond ["p1"; "p2"; "p3"; "p4"] 2)
    as (Hs & _ & Hlast).
  - simpl. lia.
  - intros j Hj. destruct j as [|[|j]]; [reflexivity | reflexivity | lia].
  - reflexivity.
  - split; [exact Hs | exact Hlast].
Defined.

Lemma iteration_cautious (w : World) (i total : nat) (p : string) :
  Forall cautious (trace (iteration w i total p)) /\
  (List.length (enqueued (trace (iteration w i total p)))
   + List.length (applies (trace (iteration w i total p))) <= 1)%nat.
Proof.
  unfold iteration, tryBlock, invokeScan, invokeApply, invoke, rejection,
    handler, catch, bind, emit, ret, throw, trace.
  destruct (desktop w);
    [destruct (tauriScan w i) as [e|[|result others]]|]; cbn [fst snd app].
  - destruct (Js.includes "429" e); cbn [fst snd app]; split;
      repeat constructor.
  - split; repeat constructor.
  - destruct (Nat.ltb_spec 0 (List.length (changes result))) as [Hc|Hc];
      cbn [fst snd app].
    + split; [|simpl; lia]. repeat constructor.
      intros Hnil. rewrite Hnil in Hc. simpl in Hc. lia.
    + destruct (sorted (stats result) && sortEnabled (storeAt w i))%bool eqn:Hs;
        cbn [fst snd app]; [|split; repeat constructor].
      apply andb_prop in Hs. destruct Hs as [_ Hon].
      destruct (tauriApply w i) as [e|]; cbn [fst snd app].
      * destruct (Js.includes "429" e); cbn [fst snd app]; split;
          try (simpl; lia); repeat constructor; assumption.
      * split; [|simpl; lia]. repeat constructor; assumption.
  - rewrite web_scan_is_no_rate_limit. cbn [fst snd app]. split; repeat constructor.
Qed.

Lemma loop_cautious (w : World) (total : nat) (ids : list string) : forall i,
  Forall cautious (loop w i total ids) /\
  (List.length (enqueued (loop w i total ids))
   + List.length (applies (loop w i total ids)) <= List.length ids)%nat.
Proof.
  induction ids as [|p ids IH]; intros i; cbn [loop].
  - split; [constructor | simpl; lia].
  - destruct (shouldCancel (storeAt w i)).
    + split; [repeat constructor | simpl; lia].
    + destruct (iteration_cautious w i total p) as [Hf Hn].
      destruct (IH (S i)) as [Hf' Hn'].
      split; [apply Forall_app; auto|].
      rewrite enqueued_app, applies_app, !length_app. simpl. lia.
Qed.

(** X19: The loop never writes a change on its own.  Whatever the back end
    answers and whenever the user cancels, every apply the loop issues has
    no approved and no rejected change and is made with sorting on, every
    result it queues has changes to review, and there is at most one of the
    two per playlist. *)
Theorem scan_loop_is_cautious (w : World) (ids : list string) :
  Forall cautious (performScanLoop w ids) /\
  (List.length (enqueued (performScanLoop w ids))
   + List.length (applies (performScanLoop w ids)) <= List.length ids)%nat.
Proof.
  unfold performScanLoop.
  destruct (loop_cautious w (List.length ids) ids 0) as [Hf Hn].
  split.
  - apply Forall_app. split; [exact Hf|].
    destruct (Nat.ltb 0 (pendingEnd w)); repeat constructor.
  - rewrite enqueued_app, applies_app, !length_app.
    destruct (Nat.ltb 0 (pendingEnd w)); simpl; lia.
Qed.



End ScanMoreFacts.

(** ** The review queue *)

Section ReviewFacts.
Import Store Scan Review.

(** X21: Reviews come up first in, first out.  Whatever the steps (results
    queued by the scan, runs of the consumer effect, dialogs opened and
    closed), the results brought up so far followed by those still waiting
    are the results queued, in the order of the scan: none is skipped, shown
    twice or shown out of turn. *)
Theorem reviews_first_in_first_out (acts : list action) : forall st,
  (snd (play acts st) ++ reviewQueue (fst (play acts st)))%list
  = (reviewQueue st ++ queuedBy acts)%list.
Proof.
  induction acts as [|a acts IH]; intros st; cbn [play].
  - simpl. now rewrite app_nil_r.
  - specialize (IH (act st a)).
    destruct (play acts (act st a)) as [st' shown]. cbn [fst snd] in *.
    rewrite <- app_assoc, IH.
    destruct st as [m q active].
    destruct a as [r| | |m']; unfold broughtUp; cbn [act queuedBy].
    + unfold enqueue. cbn [activeReview reviewQueue].
      destruct active; cbn [app]; now rewrite <- app_assoc.
    + unfold consumer. cbn [activeReview reviewQueue activeModal].
      destruct active as [r|]; [reflexivity|].
      destruct q as [|next rest]; [reflexivity|].
      destruct (showsReview m); reflexivity.
    + unfold closeReviewModal. cbn [activeReview reviewQueue].
      destruct active; reflexivity.
    + unfold setActiveModal. cbn [activeReview reviewQueue].
      destruct active; reflexivity.
Qed.

Lemma partition_perm {A} (p : A -> bool) (l : list A) :
  Permutation l (filter p l ++ filter (fun x => negb (p x)) l).
Proof.
  induction l as [|a l IH]; simpl; [constructor|].
  destruct (p a); simpl.
  - now constructor.
  - eapply perm_trans; [apply perm_skip, IH|]. apply Permutation_middle.
Qed.

(** X22: Applying a review splits its changes in two: the approved ones, whose
    ids were ticked, and the rejected ones, whose ids were not.  No change
    is lost or sent twice, and both lists go out in one call for the
    playlist under review, after which the dialog is closed whether the
    call succeeds or not. *)
Theorem apply_review_splits_changes (inTauri : bool) (approvedIds : list string)
  (failure : option string) (processing : bool) (store : AppState)
  (st : State) (r : ScanResult) :
  activeReview st = Some r ->
  Permutation (changes r) (approvedOf approvedIds r ++ rejectedOf approvedIds r) /\
  (forall c, In c (approvedOf approvedIds r) <->
             In c (changes r) /\ In (change_id c) approvedIds) /\
  (forall c, In c (rejectedOf approvedIds r) <->
             In c (changes r) /\ ~ In (change_id c) approvedIds) /\
  applies (snd (handleApplyReview inTauri approvedIds failure processing store st))
  = [mkApplyArgs (playlist_id r) (approvedOf approvedIds r)
       (rejectedOf approvedIds r) (sortRules store) (sortEnabled store)] /\
  activeReview (fst (handleApplyReview inTauri approvedIds failure processing store st)) = None /\
  activeModal (fst (handleApplyReview inTauri approvedIds failure processing store st)) = None.
Proof.
  intros Hact.
  assert (Hinc : forall id, includes id approvedIds = true <-> In id approvedIds).
  { intros id. unfold includes. rewrite existsb_exists. split.
    - intros (x & Hx & Heq). apply String.eqb_eq in Heq. now subst.
    - intros Hin. exists id. split; [exact Hin | apply String.eqb_refl]. }
  split; [apply partition_perm|]. split; [|split; [|split]].
  - intros c. unfold approvedOf. rewrite filter_In, Hinc. tauto.
  - intros c. unfold rejectedOf. rewrite filter_In, negb_true_iff.
    rewrite <- Hinc. destruct (includes (change_id c) approvedIds); intuition congruence.
  - unfold handleApplyReview. rewrite Hact. destruct inTauri, failure; reflexivity.
  - unfold handleApplyReview. rewrite Hact. split; reflexivity.
Qed.

Lemma apply_review_splits_changes_witness :
  applies (snd (handleApplyReview true ["c1"] None false quietStore
                  (mkReview (Some review) []
                     (Some (mkResult "p1" "Mix"
                              [mkChange "c1" replace; mkChange "c2" duplicate]
                              (mkStats 2 1 1 true))))))
  = [mkApplyArgs "p1" [mkChange "c1" replace] [mkChange "c2" duplicate]
       (sortRules quietStore) (sortEnabled quietStore)].
Proof.
  destruct (apply_review_splits_changes true ["c1"] None false quietStore
              (mkReview (Some review) []
                 (Some (mkResult "p1" "Mix"
                          [mkChange "c1" replace; mkChange "c2" duplicate]
                          (mkStats 2 1 1 true))))
              (mkResult "p1" "Mix"
                 [mkChange "c1" replace; mkChange "c2" duplicate]
                 (mkStats 2 1 1 true)) eq_refl)
    as (_ & _ & _ & Hcall & _).
  exact Hcall.
Defined.

End ReviewFacts.

(** ** Run now, continued *)

Section DashboardMoreFacts.
Import Dashboard.

(** X23: A poll ends the tracking of a run exactly when the history shows the
    run succeeded or failed, or the poll is the 120th or later.  Then the
    interval is cleared, the guard is lifted and the next trigger starts a
    run; otherwise the poll changes nothing and polling goes on. *)
Theorem poll_ends_tracking_when_done (h : RunHistory) (n : nat) (a : pollAnswer)
  (st : Dash) :
  let done := (negb (stillRunning h a) || Nat.leb maxAttempts n)%bool in
  existsb isStop (snd (poll h n a st)) = done /\
  runningId (fst (poll h n a st)) = (if done then None else runningId st) /\
  (done = false -> fst (poll h n a st) = st) /\
  (done = true -> forall id,
     started (snd (handleRunNow id (fst (poll h n a st)))) = [id]).
Proof.
  cbv zeta. unfold poll, pollBody, stillRunning.
  destruct a as [| |entries].
  - destruct (Nat.leb maxAttempts n); cbn; repeat split; try discriminate; auto.
  - destruct (Nat.leb maxAttempts n); cbn; repeat split; try discriminate; auto.
  - destruct (find _ entries) as [entry|].
    + destruct (String.eqb (status entry) "success");
        [|destruct (String.eqb (status entry) "failed")];
        destruct (Nat.leb maxAttempts n); cbn; repeat split; try discriminate; auto.
    + destruct (Nat.leb maxAttempts n); cbn; repeat split; try discriminate; auto.
Qed.

Lemma poll_ends_tracking_when_done_witness :
  started (snd (handleRunNow "cfg2"
                  (fst (poll (mkHistory "h1" "cfg1" "Mix" "running" Null "manual") 3
                          (PollOk [mkHistory "h1" "cfg1" "Mix" "success" Null "manual"])
                          (mkDash (Some "cfg1") None [])))))
  = ["cfg2"].
Proof.
  apply (poll_ends_tracking_when_done
           (mkHistory "h1" "cfg1" "Mix" "running" Null "manual") 3
           (PollOk [mkHistory "h1" "cfg1" "Mix" "success" Null "manual"])
           (mkDash (Some "cfg1") None [])).
  reflexivity.
Defined.

End DashboardMoreFacts.

(** ** The playlist list of the desktop app *)

Section PlaylistSectionFacts.
Import Store PlaylistSection.

Lemma includes_In (x : string) (l : list string) :
  includes x l = true <-> In x l.
Proof.
  unfold includes. rewrite existsb_exists. split.
  - intros (y & Hy & Heq). apply String.eqb_eq in Heq. now subst.
  - intros Hin. exists x. split; [exact Hin | apply String.eqb_refl].
Qed.

Lemma includes_false (x : string) (l : list string) :
  includes x l = false <-> ~ In x l.
Proof.
  rewrite <- includes_In. destruct (includes x l); intuition congruence.
Qed.

Lemma uniq_In (l : list string) : forall seen x,
  In x (uniq seen l) <-> In x l /\ ~ In x seen.
Proof.
  induction l as [|a l IH]; intros seen x; cbn [uniq]; [simpl; tauto|].
  destruct (includes a seen) eqn:Ha.
  - apply includes_In in Ha. rewrite IH. simpl. intuition (subst; tauto).
  - apply includes_false in Ha. simpl. rewrite IH. simpl.
    destruct (string_dec a x) as [->|Hne]; intuition congruence.
Qed.

Lemma uniq_NoDup (l : list string) : forall seen, NoDup (uniq seen l).
Proof.
  induction l as [|a l IH]; intros seen; cbn [uniq]; [constructor|].
  destruct (includes a seen); [apply IH|].
  constructor; [|apply IH]. rewrite uniq_In. simpl. tauto.
Qed.

Lemma dedupe_ids (l : list Playlist) : forall seen id,
  In id (map pl_id (dedupe seen l)) <-> In id (map pl_id l) /\ ~ In id seen.
Proof.
  induction l as [|p l IH]; intros seen id; cbn [dedupe]; [simpl; tauto|].
  destruct (includes (pl_id p) seen) eqn:Hp.
  - apply includes_In in Hp. rewrite IH. simpl. intuition (subst; tauto).
  - apply includes_false in Hp. simpl. rewrite IH. simpl.
    destruct (string_dec (pl_id p) id) as [Heq|Hne]; [rewrite Heq in *|];
      intuition congruence.
Qed.

Lemma dedupe_NoDup (l : list Playlist) : forall seen,
  NoDup (map pl_id (dedupe seen l)).
Proof.
  induction l as [|p l IH]; intros seen; cbn [dedupe]; [constructor|].
  destruct (includes (pl_id p) seen); [apply IH|].
  simpl. constructor; [|apply IH]. rewrite dedupe_ids. simpl. tauto.
Qed.

Lemma dedupe_sub (l : list Playlist) : forall seen p,
  In p (dedupe seen l) -> In p l.
Proof.
  induction l as [|q l IH]; intros seen p; cbn [dedupe]; [tauto|].
  destruct (includes (pl_id q) seen); simpl; [eauto|].
  intros [-> | H]; eauto.
Qed.

(** X24: The rows of the list: no id appears twice, every row is one of the
    playlists and passes the type filter and the search, and with the 'All'
    filter and an empty search the rows carry exactly the ids of the
    playlists. *)
Theorem rows_are_distinct_and_filtered (s : AppState) :
  NoDup (map pl_id (filteredPlaylists s)) /\
  (forall p, In p (filteredPlaylists s) ->
     In p (playlists s) /\ passes (filterType s) p = true
     /\ matches (searchQuery s) p = true) /\
  (filterType s = "All" -> searchQuery s = EmptyString ->
   forall id, In id (map pl_id (filteredPlaylists s)) <-> In id (map pl_id (playlists s))).
Proof.
  unfold filteredPlaylists. split; [|split].
  - do 2 apply distinct_keys_filter. apply dedupe_NoDup.
  - intros p Hp. apply filter_In in Hp. destruct Hp as [Hp Hm].
    apply filter_In in Hp. destruct Hp as [Hp Ht].
    split; [|split]; try assumption. now apply dedupe_sub in Hp.
  - intros Hall Hq id. rewrite Hall, Hq.
    rewrite !(forallb_filter_id) by (apply forallb_forall; intros ? ?; reflexivity).
    rewrite dedupe_ids. simpl. tauto.
Qed.

Lemma rows_are_distinct_and_filtered_witness :
  In "p2" (map pl_id (filteredPlaylists
                        (setFilterType "All"
                           (setPlaylists
                              [mkPlaylist "p1" "Mix" "me" true false false;
                               mkPlaylist "p1" "Mix again" "me" true false false;
                               mkPlaylist "p2" "Road" "you" false false true]
                              (initialState "r1" "r2" "r3" "r4")))))
  <-> In "p2" ["p1"; "p1"; "p2"].
Proof.
  apply (rows_are_distinct_and_filtered
           (setFilterType "All"
              (setPlaylists
                 [mkPlaylist "p1" "Mix" "me" true false false;
                  mkPlaylist "p1" "Mix again" "me" true false false;
                  mkPlaylist "p2" "Road" "you" false false true]
                 (initialState "r1" "r2" "r3" "r4")))); reflexivity.
Defined.

Example duplicate_ids_give_one_row :
  map pl_name (filteredPlaylists
                 (setFilterType "All"
                    (setPlaylists
                       [mkPlaylist "p1" "Mix" "me" true false false;
                        mkPlaylist "p1" "Mix again" "me" true false false;
                        mkPlaylist "p2" "Road" "you" false false true]
                       (initialState "r1" "r2" "r3" "r4"))))
  = ["Mix"; "Road"].
Proof. reflexivity. Qed.

(** X25: Select all adds the ids of the rows to the selection: what was
    selected stays selected, every row becomes selected, nothing else does,
    and no id is selected twice. *)
Theorem select_all_adds_the_rows (s : AppState) :
  NoDup (selectedPlaylistIds (handleSelectAll s)) /\
  (forall id, In id (selectedPlaylistIds (handleSelectAll s)) <->
     In id (selectedPlaylistIds s) \/ In id (map pl_id (filteredPlaylists s))).
Proof.
  unfold handleSelectAll. cbn [selectedPlaylistIds setSelectedPlaylistIds set_selectedPlaylistIds].
  split; [apply uniq_NoDup|].
  intros id. rewrite uniq_In, in_app_iff. simpl. tauto.
Qed.

Lemma slice_In {A} (a b : nat) (l : list A) (x : A) :
  In x (slice a b l) <-> exists i, (a <= i < b)%nat /\ nth_error l i = Some x.
Proof.
  unfold slice. split.
  - intros Hin. apply In_nth_error in Hin. destruct Hin as (j & Hj).
    rewrite nth_error_firstn, nth_error_skipn in Hj.
    destruct (Nat.ltb_spec j (b - a)); [|discriminate].
    exists (a + j)%nat. split; [lia | exact Hj].
  - intros (i & Hi & Hnth). apply (nth_error_In _ (i - a)).
    rewrite nth_error_firstn, nth_error_skipn.
    destruct (Nat.ltb_spec (i - a) (b - a)); [|lia].
    now replace (a + (i - a))%nat with i by lia.
Qed.

Lemma rangeIds_In (a b : nat) (rows : list Playlist) (id : string) :
  In id (rangeIds a b rows) <->
  exists i p, (Nat.min a b <= i <= Nat.max a b)%nat /\ nth_error rows i = Some p
              /\ pl_id p = id.
Proof.
  unfold rangeIds. rewrite in_map_iff. split.
  - intros (p & Hid & Hin). apply slice_In in Hin. destruct Hin as (i & Hi & Hnth).
    exists i, p. repeat split; try assumption; lia.
  - intros (i & p & Hi & Hnth & Hid). exists p. split; [exact Hid|].
    apply slice_In. exists i. split; [lia | exact Hnth].
Qed.

(** X26: A sweep of the mouse selects or clears a range.  While dragging from a
    row that was not selected, the selection is what it was when the drag
    began plus the rows swept, no id twice; from a row that was selected, it
    is what it was minus the rows swept.  The sweep is elastic: only the
    last row entered counts, so sweeping back undoes the excess. *)
Theorem sweep_selects_a_range (index start : nat) (rows : list Playlist)
  (d : Drag) (s : AppState) :
  isDragging d = true -> dragStartIndex d = Some start ->
  (dragMode d = true ->
     NoDup (selectedPlaylistIds (handleMouseEnter index rows d s)) /\
     forall id, In id (selectedPlaylistIds (handleMouseEnter index rows d s)) <->
                In id (dragSnapshot d) \/ In id (rangeIds start index rows)) /\
  (dragMode d = false ->
     forall id, In id (selectedPlaylistIds (handleMouseEnter index rows d s)) <->
                In id (dragSnapshot d) /\ ~ In id (rangeIds start index rows)) /\
  (forall before,
     selectedPlaylistIds (handleMouseEnter index rows d (handleMouseEnter before rows d s))
     = selectedPlaylistIds (handleMouseEnter index rows d s)).
Proof.
  intros Hdrag Hstart. unfold handleMouseEnter. rewrite Hdrag, Hstart.
  split; [|split].
  - intros ->. cbn [selectedPlaylistIds setSelectedPlaylistIds set_selectedPlaylistIds].
    split; [apply uniq_NoDup|]. intros id. rewrite uniq_In, in_app_iff. simpl. tauto.
  - intros ->. cbn [selectedPlaylistIds setSelectedPlaylistIds set_selectedPlaylistIds].
    intros id. rewrite filter_In, negb_true_iff, includes_false. tauto.
  - intros before. destruct (dragMode d); reflexivity.
Qed.

Lemma sweep_selects_a_range_witness :
  selectedPlaylistIds
    (handleMouseEnter 1
       [mkPlaylist "p1" "A" "me" true false false;
        mkPlaylist "p2" "B" "me" true false false;
        mkPlaylist "p3" "C" "me" true false false]
       (mkDrag (Some 0%nat) true (Some 0%nat) ["p9"] true)
       (handleMouseEnter 2
          [mkPlaylist "p1" "A" "me" true false false;
           mkPlaylist "p2" "B" "me" true false false;
           mkPlaylist "p3" "C" "me" true false false]
          (mkDrag (Some 0%nat) true (Some 0%nat) ["p9"] true)
          (initialState "r1" "r2" "r3" "r4")))
  = selectedPlaylistIds
      (handleMouseEnter 1
         [mkPlaylist "p1" "A" "me" true false false;
          mkPlaylist "p2" "B" "me" true false false;
          mkPlaylist "p3" "C" "me" true false false]
         (mkDrag (Some 0%nat) true (Some 0%nat) ["p9"] true)
         (initialState "r1" "r2" "r3" "r4")).
Proof.
  apply (sweep_selects_a_range 1 0
           [mkPlaylist "p1" "A" "me" true false false;
            mkPlaylist "p2" "B" "me" true false false;
            mkPlaylist "p3" "C" "me" true false false]
           (mkDrag (Some 0%nat) true (Some 0%nat) ["p9"] true)); reflexivity.
Defined.

(** X27: A click on a row.  With shift held after an earlier click, the
    selection is replaced by the rows from the earlier click to this one,
    both included.  Otherwise the row is toggled and the rest of the
    selection is kept.  Either way the click is remembered and a drag
    begins from the selection as it was. *)
Theorem click_selects (index : nat) (shiftKey : bool) (rows : list Playlist)
  (d : Drag) (s : AppState) (row : Playlist) :
  nth_error rows index = Some row ->
  exists d' s',
    handleMouseDown index true shiftKey rows d s = Some (d', s') /\
    lastClickedIndex d' = Some index /\
    dragSnapshot d' = selectedPlaylistIds s /\
    (forall last, shiftKey = true -> lastClickedIndex d = Some last ->
       selectedPlaylistIds s' = rangeIds last index rows /\
       In (pl_id row) (selectedPlaylistIds s')) /\
    (shiftKey = false \/ lastClickedIndex d = None ->
       includes (pl_id row) (selectedPlaylistIds s')
       = negb (includes (pl_id row) (selectedPlaylistIds s)) /\
       forall other, other <> pl_id row ->
         includes other (selectedPlaylistIds s') = includes other (selectedPlaylistIds s)).
Proof.
  intros Hrow. unfold handleMouseDown. cbn [negb]. rewrite Hrow.
  eexists _, _. split; [reflexivity|].
  cbn [lastClickedIndex dragSnapshot selectedPlaylistIds setSelectedPlaylistIds
         set_selectedPlaylistIds].
  split; [reflexivity|]. split; [reflexivity|]. split.
  - intros last -> ->. split; [reflexivity|].
    apply rangeIds_In. exists index, row. repeat split; try assumption; lia.
  - intros Hplain.
    assert (Hsel :
      match shiftKey, lastClickedIndex d with
      | true, Some last => rangeIds last index rows
      | _, _ =>
          if negb (includes (pl_id row) (selectedPlaylistIds s))
          then (selectedPlaylistIds s ++ [pl_id row])%list
          else filter (fun id => negb (String.eqb id (pl_id row))) (selectedPlaylistIds s)
      end
      = selectedPlaylistIds (togglePlaylistSelection (pl_id row) s)).
    { unfold togglePlaylistSelection.
      destruct Hplain as [-> | ->]; [|destruct shiftKey];
        destruct (includes (pl_id row) (selectedPlaylistIds s)); reflexivity. }
    rewrite Hsel.
    destruct (toggle_flips_one (pl_id row) s) as (Hflip & Hothers & _).
    split; assumption.
Qed.

Lemma click_selects_witness :
  exists d' s',
    handleMouseDown 2 true true
      [mkPlaylist "p1" "A" "me" true false false;
       mkPlaylist "p2" "B" "me" true false false;
       mkPlaylist "p3" "C" "me" true false false]
      (mkDrag (Some 0%nat) false None [] true)
      (setSelectedPlaylistIds ["p9"] (initialState "r1" "r2" "r3" "r4"))
    = Some (d', s') /\ lastClickedIndex d' = Some 2%nat.
Proof.
  destruct (click_selects 2 true
              [mkPlaylist "p1" "A" "me" true false false;
               mkPlaylist "p2" "B" "me" true false false;
               mkPlaylist "p3" "C" "me" true false false]
              (mkDrag (Some 0%nat) false None [] true)
              (setSelectedPlaylistIds ["p9"] (initialState "r1" "r2" "r3" "r4"))
              (mkPlaylist "p3" "C" "me" true false false) eq_refl)
    as (d' & s' & Hdown & Hlast & _).
  exists d', s'. split; assumption.
Defined.

Example shift_click_replaces_the_selection :
  option_map (fun r => selectedPlaylistIds (snd r))
    (handleMouseDown 2 true true
       [mkPlaylist "p1" "A" "me" true false false;
        mkPlaylist "p2" "B" "me" true false false;
        mkPlaylist "p3" "C" "me" true false false]
       (mkDrag (Some 0%nat) false None [] true)
       (setSelectedPlaylistIds ["p9"] (initialState "r1" "r2" "r3" "r4")))
  = Some ["p1"; "p2"; "p3"].
Proof. reflexivity. Qed.

End PlaylistSectionFacts.

(** ** The playlist picker of the server front end *)

Section SelectorFacts.
Import Selector.

Variable value : list string.

Lemma insert_selected (x : PlaylistInfo) (l : list PlaylistInfo) :
  chosen value x = true -> insert (compare value) x l = x :: l.
Proof.
  intros Hx. destruct l as [|y l]; [reflexivity|]. cbn [insert].
  unfold compare. fold (chosen value x) (chosen value y). rewrite Hx.
  destruct (chosen value y); reflexivity.
Qed.

Lemma insert_unselected (x : PlaylistInfo) (S U : list PlaylistInfo) :
  chosen value x = false -> forallb (chosen value) S = true -> forallb (fun p => negb (chosen value p)) U = true ->
  insert (compare value) x (S ++ U) = (S ++ x :: U)%list.
Proof.
  intros Hx HS HU. induction S as [|y S IH]; cbn [app].
  - destruct U as [|y U]; [reflexivity|]. cbn [insert].
    cbn [forallb] in HU. apply andb_prop in HU. destruct HU as [Hy _].
    apply negb_true_iff in Hy. unfold compare. fold (chosen value x) (chosen value y).
    now rewrite Hx, Hy.
  - cbn [forallb] in HS. apply andb_prop in HS. destruct HS as [Hy HS].
    cbn [insert]. unfold compare. fold (chosen value x) (chosen value y). rewrite Hx, Hy.
    cbn [negb andb]. change (1 <=? 0) with false. cbv iota.
    f_equal. exact (IH HS).
Qed.

Lemma forallb_filter {A} (f : A -> bool) (l : list A) : forallb f (filter f l) = true.
Proof.
  apply forallb_forall. intros x Hx. apply filter_In in Hx. tauto.
Qed.

Lemma sort_selected_first (l : list PlaylistInfo) :
  sort (compare value) l = (filter (chosen value) l ++ filter (fun p => negb (chosen value p)) l)%list.
Proof.
  induction l as [|x l IH]; [reflexivity|].
  unfold sort in *. cbn [fold_right filter]. rewrite IH.
  destruct (chosen value x) eqn:Hx; cbn [negb].
  - now apply insert_selected.
  - apply insert_unselected; [exact Hx | apply forallb_filter | apply forallb_filter].
Qed.

(** X28: The picker lists the selected playlists first and keeps, within the
    selected and within the others, the order in which the playlists were
    received.  An excluded playlist is never listed, and with an empty
    search every other playlist is. *)
Theorem picker_lists_selected_first (excludeIds : list string) (search : string)
  (playlists : list PlaylistInfo) :
  filtered value excludeIds search playlists
  = (filter (chosen value) (filter (shown excludeIds search) playlists)
     ++ filter (fun p => negb (chosen value p)) (filter (shown excludeIds search) playlists))%list /\
  (forall p, In p (filtered value excludeIds search playlists) ->
     In p playlists /\ ~ In (id p) excludeIds) /\
  (search = EmptyString ->
   forall p, In p playlists -> ~ In (id p) excludeIds ->
     In p (filtered value excludeIds search playlists)).
Proof.
  unfold filtered. rewrite sort_selected_first. split; [reflexivity|].
  assert (Hin : forall p,
    In p (filter (chosen value) (filter (shown excludeIds search) playlists)
          ++ filter (fun p => negb (chosen value p)) (filter (shown excludeIds search) playlists))
    <-> In p playlists /\ shown excludeIds search p = true).
  { intros p. rewrite in_app_iff, !filter_In. destruct (chosen value p); simpl; intuition congruence. }
  split.
  - intros p Hp. apply Hin in Hp. destruct Hp as [Hp Hs]. split; [exact Hp|].
    unfold shown in Hs. apply andb_prop in Hs. destruct Hs as [Hs _].
    apply negb_true_iff in Hs. now apply includes_false in Hs.
  - intros -> p Hp Hex. apply Hin. split; [exact Hp|].
    unfold shown. apply includes_false in Hex. rewrite Hex.
    cbn [negb andb Js.toLowerCase]. destruct (Js.toLowerCase (name p)); reflexivity.
Qed.

(** X29: A click in the picker.  A single-choice picker answers with the clicked
    playlist alone, whatever was chosen before; a multiple-choice picker
    toggles the clicked playlist and keeps the others. *)
Theorem picker_click (ident : string) :
  handleSelect false value ident = [ident] /\
  Store.includes ident (handleSelect true value ident)
  = negb (Store.includes ident value) /\
  (forall other, other <> ident ->
     Store.includes other (handleSelect true value ident) = Store.includes other value).
Proof.
  split; [reflexivity|]. unfold handleSelect.
  destruct (Store.includes ident value) eqn:Hin; split.
  - now rewrite includes_filter_ne, String.eqb_refl.
  - intros other Hne. rewrite includes_filter_ne.
    destruct (String.eqb_spec other ident); [contradiction | reflexivity].
  - rewrite includes_app, Hin. unfold Store.includes. simpl.
    now rewrite String.eqb_refl.
  - intros other Hne. rewrite includes_app. unfold Store.includes at 2. simpl.
    destruct (String.eqb_spec other ident); [contradiction|]. now rewrite !orb_false_r.
Qed.

End SelectorFacts.

Lemma picker_lists_selected_first_witness :
  In (Selector.mkInfo "p1" "Morning" "me" true 12 None)
    (Selector.filtered ["p1"] ["p2"] EmptyString
       [Selector.mkInfo "p1" "Morning" "me" true 12 None;
        Selector.mkInfo "p2" "Night" "me" true 30 None]).
Proof.
  apply (picker_lists_selected_first ["p1"] ["p2"] EmptyString
           [Selector.mkInfo "p1" "Morning" "me" true 12 None;
            Selector.mkInfo "p2" "Night" "me" true 30 None]).
  - reflexivity.
  - left. reflexivity.
  - simpl. intros [H | []]. discriminate.
Defined.

Example picker_order :
  map Selector.id
    (Selector.filtered ["p3"; "p2"] ["p0"] "mix"
       [Selector.mkInfo "p0" "Target Mix" "me" true 1 None;
        Selector.mkInfo "p1" "Mix One" "me" true 1 None;
        Selector.mkInfo "p2" "MIX two" "me" true 1 None;
        Selector.mkInfo "p4" "Other" "me" true 1 None;
        Selector.mkInfo "p3" "remix" "me" true 1 None])
  = ["p2"; "p3"; "p1"].
Proof. reflexivity. Qed.

Lemma picker_click_witness :
  Store.includes "p1" (Selector.handleSelect true ["p1"; "p2"] "p3") = Store.includes "p1" ["p1"; "p2"].
Proof.
  apply (picker_click ["p1"; "p2"] "p3"). discriminate.
Defined.

(** ** What the simple form loses *)

Section CronLoss.
Import Js Cron.

Lemma freq_eqb_spec (a b : freq) : freq_eqb a b = true <-> a = b.
Proof. destruct a, b; simpl; split; congruence. Qed.

(** The dependency array is unchanged exactly when the simple state is. *)
Lemma sameDeps_spec (a b : simple) : sameDeps a b = true <-> a = b.
Proof.
  destruct a as [f1 n1 t1 w1 m1], b as [f2 n2 t2 w2 m2]. unfold sameDeps.
  cbn [simpleFreq simpleInterval simpleTime simpleDow simpleDom].
  rewrite !andb_true_iff, freq_eqb_spec, Z.eqb_eq, !String.eqb_eq.
  split.
  - intros ((((-> & ->) & ->) & ->) & ->). reflexivity.
  - intros [= -> -> -> -> ->]. repeat split.
Qed.

(** The cron string of the form once a schedule is opened: the schedule's
    own when reading it leaves the simple state as it was, and the one
    written from the simple state otherwise. *)
Lemma openEditModal_cron (cron : string) (ed : Editor) :
  handleSave (openEditModal cron ed)
  = if sameDeps (simpleState ed) (parseCronToSimple cron (simpleState ed))
    then cron
    else updateCronFromSimple (parseCronToSimple cron (simpleState ed)).
Proof.
  unfold handleSave, openEditModal, cronEffect. cbn [simpleState showModal].
  now destruct (sameDeps _ _).
Qed.

(** X8: Opening a schedule whose cron the simple form cannot show (five fields
    or more, none of the five branches taken) sets the simple form to daily
    at 00:00.  Where the simple form held exactly that before, as on a
    fresh page, the effect does not run and Save sends the schedule's own
    cron; where it held anything else the effect rewrites the cron of the
    form, and Save sends "0 0 * * *". *)
Theorem complex_cron_kept_or_overwritten (cron : string) (ed : Editor) :
  (5 <= List.length (fields cron))%nat ->
  takesBranch cron = false ->
  simpleState (openEditModal cron ed) = dailyMidnight /\
  showModal (openEditModal cron ed) = true /\
  (simpleState ed = dailyMidnight -> handleSave (openEditModal cron ed) = cron) /\
  (simpleState ed <> dailyMidnight ->
   handleSave (openEditModal cron ed) = "0 0 * * *").
Proof.
  intros Hlen Hno.
  pose proof (fallback_when_no_branch cron (simpleState ed) Hlen Hno) as Hparse.
  split; [|split; [|split]].
  - unfold openEditModal, cronEffect. cbn [simpleState showModal].
    now destruct (sameDeps _ _).
  - unfold openEditModal, cronEffect. cbn [simpleState showModal].
    now destruct (sameDeps _ _).
  - intros Hsame. rewrite openEditModal_cron, Hparse, Hsame.
    now rewrite (proj2 (sameDeps_spec dailyMidnight dailyMidnight) eq_refl).
  - intros Hother. rewrite openEditModal_cron, Hparse.
    destruct (sameDeps (simpleState ed) dailyMidnight) eqn:Hdeps; [|reflexivity].
    apply sameDeps_spec in Hdeps. contradiction.
Qed.

Lemma complex_cron_kept_or_overwritten_witness :
  handleSave (openEditModal "30 4 1 6 *" mounted) = "30 4 1 6 *" /\
  handleSave (openEditModal "30 4 1 6 *"
                (closeModal (openEditModal "45 7 * * 3" mounted)))
  = "0 0 * * *".
Proof.
  destruct (complex_cron_kept_or_overwritten "30 4 1 6 *" mounted)
    as (_ & _ & Hkept & _); [vm_compute; lia | reflexivity |].
  destruct (complex_cron_kept_or_overwritten "30 4 1 6 *"
              (closeModal (openEditModal "45 7 * * 3" mounted)))
    as (_ & _ & _ & Hlost); [vm_compute; lia | reflexivity |].
  split; [apply Hkept; reflexivity | apply Hlost; discriminate].
Defined.

End CronLoss.
